(** * cronexplain: a shallow embedding of [src/index.ts]

    The development follows the source file top to bottom: the JavaScript
    built-ins the program calls ([String.prototype.split], [parseInt],
    [Number], [Date] ...), then [replaceNames], [parseField], [parseCron],
    [validateCron], [explainField], [explainCron] and [getNextRuns].

    Modelling conventions.
    - JavaScript strings are [string]; the model is exact on ASCII text, and
      every entry point that interprets characters answers [Unmodelled] on
      a byte above 127.  The string helpers themselves ([toLowerCase],
      [replaceNames]) follow the source on ASCII text, and a statement about
      one of them alone assumes [ascii_only] of its argument.
    - JavaScript numbers are [num]: [NaN] or an exact integer.  Numeric
      literals that denote something else (fractions, exponents, hexadecimal,
      [Infinity]) or that have more than 15 digits (where doubles stop being
      exact) make the conversion answer [Unmodelled].
    - [throw new Error(msg)] is the outcome [Throw e]; [message e] is the
      text of [msg].
    - A [Date] is the local fields its getters read.  A setter builds new
      fields as [MakeDay]/[MakeTime] do, stores their instant [UTC(tlocal)]
      and reads it back through [LocalTime]; both depend on the time zone
      of the host, a [Zone], which every function that sets a date takes as
      an argument.  The limits of the platform (size of a [Set], range of
      a [Date]) are not modelled.
    - [new Date()] is an argument: [getNextRuns z expr count now]. *)

From Stdlib Require Import ZArith List String Ascii Bool Lia.
From Stdlib Require Import DecimalString Sorted Permutation.
Import ListNotations.

Open Scope string_scope.
Open Scope Z_scope.

(* ================================================================== *)
(** ** Outcomes of a call *)
(* ================================================================== *)

Inductive Error : Type :=
| InvalidStep (part : string)
| InvalidRange (part : string)
| InvalidValue (part : string)
| OutOfRange (v min max : Z)
| FieldCount (got : nat).

Inductive outcome (A : Type) : Type :=
| Return (a : A)
| Throw (e : Error)
| Unmodelled.

Arguments Return {A} a.
Arguments Throw {A} e.
Arguments Unmodelled {A}.

Definition bind {A B : Type} (m : outcome A) (k : A -> outcome B) : outcome B :=
  match m with
  | Return a => k a
  | Throw e => Throw e
  | Unmodelled => Unmodelled
  end.

Notation "x <- m ;; k" := (bind m (fun x => k))
  (at level 61, m at next level, right associativity).

Definition returns {A : Type} (m : outcome A) : bool :=
  match m with Return _ => true | _ => false end.

(* ================================================================== *)
(** ** JavaScript numbers and their text *)
(* ================================================================== *)

Inductive num : Type :=
| NaN
| Num (z : Z).

Definition isNaN (n : num) : bool :=
  match n with NaN => true | Num _ => false end.

(** [a <= b] on numbers: false as soon as one side is [NaN]. *)
Definition num_leb (a b : num) : bool :=
  match a, b with
  | Num x, Num y => x <=? y
  | _, _ => false
  end.

(** [String(z)] for an integer. *)
Definition string_of_Z (z : Z) : string :=
  NilZero.string_of_int (Z.to_int z).

(** [String(n)], as a template literal interpolates a number. *)
Definition string_of_num (n : num) : string :=
  match n with
  | NaN => "NaN"
  | Num z => string_of_Z z
  end.

(* ================================================================== *)
(** ** Characters and strings *)
(* ================================================================== *)

Definition code (c : ascii) : N := N_of_ascii c.

Definition is_ws (c : ascii) : bool :=
  let n := code c in
  (((9 <=? n) && (n <=? 13)) || (n =? 32))%N.

Definition is_digit (c : ascii) : bool :=
  let n := code c in ((48 <=? n) && (n <=? 57))%N.

Definition digit_val (c : ascii) : Z := Z.of_N (code c) - 48.

Definition is_upper (c : ascii) : bool :=
  let n := code c in ((65 <=? n) && (n <=? 90))%N.

Definition lower_char (c : ascii) : ascii :=
  if is_upper c then ascii_of_N (code c + 32) else c.

Fixpoint ascii_only (s : string) : bool :=
  match s with
  | EmptyString => true
  | String c r => (code c <? 128)%N && ascii_only r
  end.

(** [s.toLowerCase()] on text that [ascii_only] accepts: the letters A to
    Z are mapped to a to z and every other character is kept.  Outside
    ASCII the built-in also maps letters of other alphabets, which this
    function does not follow; [parseCron] answers [Unmodelled] there, and a
    statement about this function alone assumes [ascii_only] of its
    argument. *)
Fixpoint toLowerCase (s : string) : string :=
  match s with
  | EmptyString => EmptyString
  | String c r => String (lower_char c) (toLowerCase r)
  end.

(** [s.includes(c)] for a one-character needle. *)
Fixpoint includes (c : ascii) (s : string) : bool :=
  match s with
  | EmptyString => false
  | String d r => Ascii.eqb d c || includes c r
  end.

(** [s.split(c)] for a one-character separator: never the empty list. *)
Fixpoint split (sep : ascii) (s : string) : list string :=
  match s with
  | EmptyString => [EmptyString]
  | String c r =>
      if Ascii.eqb c sep then EmptyString :: split sep r
      else match split sep r with
           | h :: t => String c h :: t
           | [] => [String c EmptyString]
           end
  end.

Fixpoint trimStart (s : string) : string :=
  match s with
  | EmptyString => EmptyString
  | String c r => if is_ws c then trimStart r else s
  end.

Fixpoint trimEnd (s : string) : string :=
  match s with
  | EmptyString => EmptyString
  | String c r =>
      let r' := trimEnd r in
      if is_ws c && String.eqb r' EmptyString then EmptyString else String c r'
  end.

Definition trim (s : string) : string := trimEnd (trimStart s).

(** [s.split(/\s+/)]; [in_ws] tells whether the previous character was
    whitespace, so that a run of whitespace separates once. *)
Fixpoint splitWs_from (in_ws : bool) (s : string) : list string :=
  match s with
  | EmptyString => [EmptyString]
  | String c r =>
      if is_ws c then
        if in_ws then splitWs_from true r
        else EmptyString :: splitWs_from true r
      else match splitWs_from false r with
           | h :: t => String c h :: t
           | [] => [String c EmptyString]
           end
  end.

Definition splitWs (s : string) : list string := splitWs_from false s.

(** [s.slice(n)] for [0 <= n]. *)
Fixpoint slice (n : nat) (s : string) : string :=
  match n, s with
  | O, _ => s
  | S k, EmptyString => EmptyString
  | S k, String _ r => slice k r
  end.

Definition startsWith (p s : string) : bool := String.prefix p s.

(** [xs.join(sep)]. *)
Fixpoint join (sep : string) (xs : list string) : string :=
  match xs with
  | [] => EmptyString
  | [x] => x
  | x :: rest => x ++ sep ++ join sep rest
  end.

(** [s.replace(new RegExp(name, "g"), rep)] for a literal, non-empty
    [name]: leftmost non-overlapping occurrences.  [skip] counts the
    characters of a match still to be dropped. *)
Fixpoint replaceAll_from (skip : nat) (name rep s : string) : string :=
  match s with
  | EmptyString => EmptyString
  | String c r =>
      match skip with
      | S k => replaceAll_from k name rep r
      | O =>
          if String.prefix name s
          then rep ++ replaceAll_from (String.length name - 1)%nat name rep r
          else String c (replaceAll_from 0 name rep r)
      end
  end.

Definition replaceAll (name rep s : string) : string :=
  replaceAll_from 0 name rep s.

(* ------------------------------------------------------------------ *)
(** *** [parseInt] and [Number] *)
(* ------------------------------------------------------------------ *)

Fixpoint takeDigits (s : string) : list ascii :=
  match s with
  | EmptyString => []
  | String c r => if is_digit c then c :: takeDigits r else []
  end.

Fixpoint all_digits (s : string) : bool :=
  match s with
  | EmptyString => true
  | String c r => is_digit c && all_digits r
  end.

Definition digits_value (ds : list ascii) : Z :=
  fold_left (fun acc c => 10 * acc + digit_val c) ds 0.

(** Strip one optional sign: the sign as a factor, and the rest. *)
Definition strip_sign (s : string) : Z * string :=
  match s with
  | String "-"%char r => (-1, r)
  | String "+"%char r => (1, r)
  | _ => (1, s)
  end.

(** Doubles represent every integer of at most 15 decimal digits. *)
Definition exact_digits (ds : list ascii) : bool :=
  (List.length ds <=? 15)%nat.

(** [parseInt(s, 10)]: leading whitespace, an optional sign, then the
    longest run of decimal digits; [NaN] when that run is empty. *)
Definition parseInt10 (s : string) : outcome num :=
  if negb (ascii_only s) then Unmodelled
  else
    let (sign, body) := strip_sign (trimStart s) in
    match takeDigits body with
    | [] => Return NaN
    | ds => if exact_digits ds then Return (Num (sign * digits_value ds))
            else Unmodelled
    end.

(** [parseInt(s)] with no radix: as [parseInt(s, 10)] unless the text
    carries a [0x] prefix, which selects radix 16 (not modelled). *)
Definition parseInt (s : string) : outcome num :=
  if negb (ascii_only s) then Unmodelled
  else
    let (_, body) := strip_sign (trimStart s) in
    if String.prefix "0x" body || String.prefix "0X" body then Unmodelled
    else parseInt10 s.

(** [Number(s)]: whitespace is trimmed on both sides; the empty text is 0;
    a signed run of digits is that integer.  Any other numeric literal
    starts (after the sign) with a digit, a dot or the I of Infinity, and is
    outside the integers of the model; all remaining texts are [NaN]. *)
Definition Number (s : string) : outcome num :=
  if negb (ascii_only s) then Unmodelled
  else
    let t := trim s in
    if String.eqb t EmptyString then Return (Num 0)
    else
      let (sign, body) := strip_sign t in
      match body with
      | EmptyString => Return NaN
      | String c _ =>
          if all_digits body then
            if exact_digits (takeDigits body)
            then Return (Num (sign * digits_value (takeDigits body)))
            else Unmodelled
          else if is_digit c || Ascii.eqb c "."%char || Ascii.eqb c "I"%char
               then Unmodelled
               else Return NaN
      end.

(* ================================================================== *)
(** ** Tables and records of the program *)
(* ================================================================== *)

Definition MONTH_NAMES : list string :=
  [ ""; "January"; "February"; "March"; "April"; "May"; "June";
    "July"; "August"; "September"; "October"; "November"; "December" ].

Definition DAY_NAMES : list string :=
  [ "Sunday"; "Monday"; "Tuesday"; "Wednesday"; "Thursday"; "Friday";
    "Saturday" ].

Definition MONTH_MAP : list (string * Z) :=
  [ ("jan", 1); ("feb", 2); ("mar", 3); ("apr", 4); ("may", 5); ("jun", 6);
    ("jul", 7); ("aug", 8); ("sep", 9); ("oct", 10); ("nov", 11);
    ("dec", 12) ].

Definition DAY_MAP : list (string * Z) :=
  [ ("sun", 0); ("mon", 1); ("tue", 2); ("wed", 3); ("thu", 4); ("fri", 5);
    ("sat", 6) ].

Record CronParts : Type := mkCronParts {
  minute : string;
  hour : string;
  dayOfMonth : string;
  month : string;
  dayOfWeek : string
}.

Record ParsedField : Type := mkParsedField {
  values : list Z;
  raw : string
}.

Definition message (e : Error) : string :=
  match e with
  | InvalidStep part => "Invalid step: " ++ part
  | InvalidRange part => "Invalid range: " ++ part
  | InvalidValue part => "Invalid value: " ++ part
  | OutOfRange v min max =>
      "Value " ++ string_of_Z v ++ " out of range [" ++ string_of_Z min
        ++ "-" ++ string_of_Z max ++ "]"
  | FieldCount got =>
      "Expected 5 fields (minute hour day month weekday), got "
        ++ string_of_Z (Z.of_nat got)
  end.

(* ================================================================== *)
(** ** [replaceNames] *)
(* ================================================================== *)

(** The entries of [map] are visited in insertion order, each replacing
    every occurrence of its key in the lower-cased text.  As [toLowerCase],
    it follows the source on text that [ascii_only] accepts. *)
Definition replaceNames (field : string) (map : list (string * Z)) : string :=
  fold_left (fun result entry => replaceAll (fst entry) (string_of_Z (snd entry)) result)
            map (toLowerCase field).

(* ================================================================== *)
(** ** [parseField] *)
(* ================================================================== *)

(** [values.add(i)] on a [Set<number>] kept in insertion order. *)
Definition set_add (i : Z) (vs : list Z) : list Z :=
  if existsb (Z.eqb i) vs then vs else (vs ++ [i])%list.

(** [for (let i = start; i <= end; i += step) values.add(i)] with
    [0 < step]; [fuel] bounds the number of rounds. *)
Fixpoint for_add (fuel : nat) (i e step : Z) (vs : list Z) : list Z :=
  match fuel with
  | O => vs
  | S k => if i <=? e then for_add k (i + step) e step (set_add i vs) else vs
  end.

(** The loop on numbers: it does not run when a bound is [NaN]; otherwise
    [e - i + 1] rounds are enough, since every round adds at least 1. *)
Definition for_loop (start e : num) (step : Z) (vs : list Z) : list Z :=
  match start, e with
  | Num i, Num j => for_add (Z.to_nat (j - i + 1)) i j step vs
  | _, _ => vs
  end.

(** The first two elements of a split, as the destructuring [[a, b] = ...]
    reads them; a split on a separator the text includes has both. *)
Definition first_two (xs : list string) : string * string :=
  match xs with
  | a :: b :: _ => (a, b)
  | [a] => (a, EmptyString)
  | [] => (EmptyString, EmptyString)
  end.

(** One round of [for (const part of parts)]: the values after [part]. *)
Definition parseTerm (part : string) (min max : Z) (vs : list Z)
  : outcome (list Z) :=
  if String.eqb part "*" then
    Return (for_loop (Num min) (Num max) 1 vs)
  else if includes "/"%char part then
    let (range, stepStr) := first_two (split "/"%char part) in
    step <- parseInt10 stepStr ;;
    match step with
    | NaN => Throw (InvalidStep part)
    | Num st =>
        if st <=? 0 then Throw (InvalidStep part)
        else if String.eqb range "*" then
          Return (for_loop (Num min) (Num max) st vs)
        else if includes "-"%char range then
          let (a, b) := first_two (split "-"%char range) in
          start <- Number a ;;
          e <- Number b ;;
          Return (for_loop start e st vs)
        else
          start <- parseInt10 range ;;
          Return (for_loop start (Num max) st vs)
    end
  else if includes "-"%char part then
    let (a, b) := first_two (split "-"%char part) in
    na <- Number a ;;
    nb <- Number b ;;
    if isNaN na || isNaN nb then Throw (InvalidRange part)
    else Return (for_loop na nb 1 vs)
  else
    n <- parseInt10 part ;;
    match n with
    | NaN => Throw (InvalidValue part)
    | Num z => Return (set_add z vs)
    end.

(** The whole [for (const part of parts)] loop. *)
Fixpoint parseTerms (parts : list string) (min max : Z) (vs : list Z)
  : outcome (list Z) :=
  match parts with
  | [] => Return vs
  | part :: rest =>
      vs' <- parseTerm part min max vs ;;
      parseTerms rest min max vs'
  end.

(** [Array.from(values).sort((a, b) => a - b)]: insertion sort; on
    distinct integers every correct sort gives the same array. *)
Fixpoint insert_sorted (x : Z) (l : list Z) : list Z :=
  match l with
  | [] => [x]
  | y :: r => if x <=? y then x :: l else y :: insert_sorted x r
  end.

Fixpoint sort (l : list Z) : list Z :=
  match l with
  | [] => []
  | x :: r => insert_sorted x (sort r)
  end.

Definition out_of_range (min max v : Z) : bool := (v <? min) || (max <? v).

Definition parseField (raw : string) (min max : Z) : outcome ParsedField :=
  vs <- parseTerms (split ","%char raw) min max [] ;;
  let sorted := sort vs in
  match find (out_of_range min max) sorted with
  | Some v => Throw (OutOfRange v min max)
  | None => Return (mkParsedField sorted raw)
  end.

(* ================================================================== *)
(** ** [parseCron] and [validateCron] *)
(* ================================================================== *)

Definition parseCron (expr : string) : outcome CronParts :=
  if negb (ascii_only expr) then Unmodelled
  else
    match splitWs (trim expr) with
    | [p0; p1; p2; p3; p4] =>
        Return (mkCronParts p0 p1 p2
                  (replaceNames p3 MONTH_MAP) (replaceNames p4 DAY_MAP))
    | parts => Throw (FieldCount (List.length parts))
    end.

Record Validation : Type := mkValidation {
  valid : bool;
  error : option string
}.

(** The body of the [try] block. *)
Definition validateCron_try (expr : string) : outcome unit :=
  parts <- parseCron expr ;;
  _ <- parseField (minute parts) 0 59 ;;
  _ <- parseField (hour parts) 0 23 ;;
  _ <- parseField (dayOfMonth parts) 1 31 ;;
  _ <- parseField (month parts) 1 12 ;;
  _ <- parseField (dayOfWeek parts) 0 7 ;;
  Return tt.

(** [try { ... return { valid: true } } catch (e) { return { valid: false,
    error: e.message } }]. *)
Definition validateCron (expr : string) : outcome Validation :=
  match validateCron_try expr with
  | Return _ => Return (mkValidation true None)
  | Throw e => Return (mkValidation false (Some (message e)))
  | Unmodelled => Unmodelled
  end.

(* ================================================================== *)
(** ** [explainField] and [explainCron] *)
(* ================================================================== *)

(** [names[n]]: [None] is [undefined]. *)
Definition index (names : list string) (n : num) : option string :=
  match n with
  | NaN => None
  | Num z => if z <? 0 then None else nth_error names (Z.to_nat z)
  end.

(** How a template literal interpolates a string that may be [undefined]. *)
Definition interpolate (v : option string) : string :=
  match v with
  | Some s => s
  | None => "undefined"
  end.

(** [names ? names[parseInt(text)] : text]. *)
Definition nameOf (names : option (list string)) (text : string)
  : outcome (option string) :=
  match names with
  | Some tbl => n <- parseInt text ;; Return (index tbl n)
  | None => Return (Some text)
  end.

(** [names ? names[val] || part : part]: [undefined] and the empty string
    are both falsy. *)
Definition nameOrPart (names : option (list string)) (val : num)
  (part : string) : string :=
  match names with
  | Some tbl =>
      match index tbl val with
      | Some s => if String.eqb s EmptyString then part else s
      | None => part
      end
  | None => part
  end.

(** One round of [for (const part of parts)]: the description pushed. *)
Definition explainPart (names : option (list string)) (part : string)
  : outcome string :=
  if includes "/"%char part then
    let (range, step) := first_two (split "/"%char part) in
    if String.eqb range "*" then
      Return ("every " ++ step)
    else if includes "-"%char range then
      let (a, b) := first_two (split "-"%char range) in
      aName <- nameOf names a ;;
      bName <- nameOf names b ;;
      Return ("every " ++ step ++ " from " ++ interpolate aName
                ++ " through " ++ interpolate bName)
    else
      rName <- nameOf names range ;;
      Return ("every " ++ step ++ " starting at " ++ interpolate rName)
  else if includes "-"%char part then
    let (a, b) := first_two (split "-"%char part) in
    aName <- nameOf names a ;;
    bName <- nameOf names b ;;
    Return (interpolate aName ++ " through " ++ interpolate bName)
  else
    val <- parseInt10 part ;;
    Return (nameOrPart names val part).

Fixpoint explainParts (names : option (list string)) (parts : list string)
  : outcome (list string) :=
  match parts with
  | [] => Return []
  | part :: rest =>
      d <- explainPart names part ;;
      ds <- explainParts names rest ;;
      Return (d :: ds)
  end.

Definition explainField (raw : string) (min max : Z)
  (names : option (list string)) : outcome string :=
  if String.eqb raw "*" then Return "every"
  else
    descriptions <- explainParts names (split ","%char raw) ;;
    Return (join ", " descriptions).

(** The callback of [parts.hour.split(",").map(...)]. *)
Definition explainHour (h : string) : outcome string :=
  if includes "-"%char h then Return h
  else
    n <- parseInt10 h ;;
    let ampm := if num_leb (Num 12) n then "PM" else "AM" in
    let h12 :=
      match n with
      | NaN => NaN
      | Num z => if z =? 0 then Num 12 else if 12 <? z then Num (z - 12) else Num z
      end in
    Return (string_of_num h12 ++ ":00 " ++ ampm).

Fixpoint explainHours (hs : list string) : outcome (list string) :=
  match hs with
  | [] => Return []
  | h :: rest =>
      v <- explainHour h ;;
      vs <- explainHours rest ;;
      Return (v :: vs)
  end.

Definition explainCron (expr : string) : outcome string :=
  parts <- parseCron expr ;;
  _ <- parseField (minute parts) 0 59 ;;
  _ <- parseField (hour parts) 0 23 ;;
  _ <- parseField (dayOfMonth parts) 1 31 ;;
  _ <- parseField (month parts) 1 12 ;;
  _ <- parseField (dayOfWeek parts) 0 7 ;;
  minutePiece <-
    (if String.eqb (minute parts) "*" then Return "every minute"
     else if startsWith "*/" (minute parts)
          then Return ("every " ++ slice 2 (minute parts) ++ " minutes")
          else f <- explainField (minute parts) 0 59 None ;;
               Return ("at minute " ++ f)) ;;
  hourPiece <-
    (if String.eqb (hour parts) "*" then Return "of every hour"
     else if startsWith "*/" (hour parts)
          then Return ("every " ++ slice 2 (hour parts) ++ " hours")
          else hourVals <- explainHours (split ","%char (hour parts)) ;;
               Return ("at " ++ join ", " hourVals)) ;;
  domPieces <-
    (if negb (String.eqb (dayOfMonth parts) "*")
     then f <- explainField (dayOfMonth parts) 1 31 None ;;
          Return ["on day " ++ f]
     else Return []) ;;
  monthPieces <-
    (if negb (String.eqb (month parts) "*")
     then f <- explainField (month parts) 1 12 (Some MONTH_NAMES) ;;
          Return ["in " ++ f]
     else Return []) ;;
  dowPieces <-
    (if negb (String.eqb (dayOfWeek parts) "*")
     then f <- explainField (dayOfWeek parts) 0 7 (Some DAY_NAMES) ;;
          Return ["on " ++ f]
     else Return []) ;;
  Return (join " " ([minutePiece; hourPiece] ++ domPieces ++ monthPieces
                      ++ dowPieces)%list).

(* ================================================================== *)
(** ** [Date] *)
(* ================================================================== *)

(** The local-time fields of a [Date]; the projections are the getters.
    [getMonth] counts from 0. *)
Record Date : Type := mkDate {
  getFullYear : Z;
  getMonth : Z;
  getDate : Z;
  getHours : Z;
  getMinutes : Z;
  getSeconds : Z;
  getMilliseconds : Z
}.

Definition isLeap (y : Z) : bool :=
  ((y mod 4 =? 0) && negb (y mod 100 =? 0)) || (y mod 400 =? 0).

Definition daysInMonth (y m : Z) : Z :=
  if m =? 1 then (if isLeap y then 29 else 28)
  else if (m =? 3) || (m =? 5) || (m =? 8) || (m =? 10) then 30
  else 31.

(** A calendar day: year, month from 0, day of the month from 1. *)
Definition Day : Type := (Z * Z * Z)%type.

Definition nextDay (d : Day) : Day :=
  let '(y, m, dd) := d in
  if dd <? daysInMonth y m then (y, m, dd + 1)
  else if m <? 11 then (y, m + 1, 1)
  else (y + 1, 0, 1).

Definition prevDay (d : Day) : Day :=
  let '(y, m, dd) := d in
  if 1 <? dd then (y, m, dd - 1)
  else if 0 <? m then (y, m - 1, daysInMonth y (m - 1))
  else (y - 1, 11, 31).

Fixpoint iter_day (f : Day -> Day) (n : nat) (d : Day) : Day :=
  match n with
  | O => d
  | S k => iter_day f k (f d)
  end.

Definition shiftDays (k : Z) (d : Day) : Day :=
  if 0 <=? k then iter_day nextDay (Z.to_nat k) d
  else iter_day prevDay (Z.to_nat (- k)) d.

(** [MakeDate(MakeDay(y, mo, d), MakeTime(h, mi, s, ms))] read back as
    local fields: the time carries into the day count, the month into the
    year, and the day count is walked from the first of the month. *)
Definition makeDate (y mo d h mi s ms : Z) : Date :=
  let s1 := s + ms / 1000 in
  let mi1 := mi + s1 / 60 in
  let h1 := h + mi1 / 60 in
  let '(y', mo', d') := shiftDays (d - 1 + h1 / 24) (y + mo / 12, mo mod 12, 1) in
  mkDate y' mo' d' (h1 mod 24) (mi1 mod 60) (s1 mod 60) (ms mod 1000).

(** [DayFromYear], the days before each month and [WeekDay] of ECMAScript;
    day 0 is Thursday 1 January 1970. *)
Definition dayFromYear (y : Z) : Z :=
  365 * (y - 1970) + (y - 1969) / 4 - (y - 1901) / 100 + (y - 1601) / 400.

Definition daysBeforeMonth (y m : Z) : Z :=
  let leap := if isLeap y then 1 else 0 in
  if m =? 0 then 0
  else if m =? 1 then 31
  else nth (Z.to_nat (m - 2)) [59; 90; 120; 151; 181; 212; 243; 273; 304; 334] 0
       + leap.

Definition dayNumber (d : Day) : Z :=
  let '(y, m, dd) := d in dayFromYear y + daysBeforeMonth y m + dd - 1.

Definition msPerDay : Z := 86400000.

(** The local time value of the fields: milliseconds since 1 January 1970,
    00:00 local time. *)
Definition localValue (t : Date) : Z :=
  dayNumber (getFullYear t, getMonth t, getDate t) * msPerDay
  + getHours t * 3600000 + getMinutes t * 60000 + getSeconds t * 1000
  + getMilliseconds t.

(** The time zone of the host: [LocalTZA(t, true)], the offset in force at
    a UTC instant, and [LocalTZA(tlocal, false)], the offset a local time
    value is read with (for a skipped or repeated local time, the offset
    before the transition). *)
Record Zone : Type := mkZone {
  localTZA_utc : Z -> Z;
  localTZA_local : Z -> Z
}.

(** [UTC(tlocal)] and [LocalTime(t)]. *)
Definition UTC (z : Zone) (tlocal : Z) : Z := tlocal - localTZA_local z tlocal.

Definition LocalTime (z : Zone) (t : Z) : Z := t + localTZA_utc z t.

(** [getTime()] of a date a setter has built: the instant its fields
    denote. *)
Definition getTime (z : Zone) (t : Date) : Z := UTC z (localValue t).

(** What a setter leaves for the getters: it stores [UTC(tlocal)] for the
    fields it built, and the getters read [LocalTime] of that instant.  The
    fields read are the fields built moved by the difference of the two
    local time values, which is 0 except at a transition of the zone. *)
Definition settle (z : Zone) (built : Date) : Date :=
  let tlocal := localValue built in
  let shift := LocalTime z (UTC z tlocal) - tlocal in
  makeDate (getFullYear built) (getMonth built) (getDate built)
           (getHours built) (getMinutes built) (getSeconds built)
           (getMilliseconds built + shift).

Definition setSeconds (z : Zone) (t : Date) (s ms : Z) : Date :=
  settle z (makeDate (getFullYear t) (getMonth t) (getDate t) (getHours t)
                     (getMinutes t) s ms).

Definition setMinutes (z : Zone) (t : Date) (mi : Z) : Date :=
  settle z (makeDate (getFullYear t) (getMonth t) (getDate t) (getHours t) mi
                     (getSeconds t) (getMilliseconds t)).

Definition setHours (z : Zone) (t : Date) (h mi s ms : Z) : Date :=
  settle z (makeDate (getFullYear t) (getMonth t) (getDate t) h mi s ms).

Definition setDate (z : Zone) (t : Date) (d : Z) : Date :=
  settle z (makeDate (getFullYear t) (getMonth t) d (getHours t)
                     (getMinutes t) (getSeconds t) (getMilliseconds t)).

Definition setMonth (z : Zone) (t : Date) (mo d : Z) : Date :=
  settle z (makeDate (getFullYear t) mo d (getHours t) (getMinutes t)
                     (getSeconds t) (getMilliseconds t)).

(** A host whose zone has the same offset at every time. *)
Definition fixedZone (offset : Z) : Zone :=
  mkZone (fun _ => offset) (fun _ => offset).

Definition getDay (t : Date) : Z :=
  (dayNumber (getFullYear t, getMonth t, getDate t) + 4) mod 7.

(* ================================================================== *)
(** ** [getNextRuns] *)
(* ================================================================== *)

(** [xs.includes(v)] on an array of numbers, and [set.has(v)]. *)
Definition includesZ (xs : list Z) (v : Z) : bool := existsb (Z.eqb v) xs.

(** What the search loop reads: the five parsed value arrays, with the
    days of the week already in [dowSet], and the two wildcard flags. *)
Record Search : Type := mkSearch {
  minutes : list Z;
  hours : list Z;
  daysOfMonth : list Z;
  months : list Z;
  dowSet : list Z;
  domWild : bool;
  dowWild : bool
}.

(** [new Set(daysOfWeek.map((d) => (d === 7 ? 0 : d)))]. *)
Definition normalizeDow (daysOfWeek : list Z) : list Z :=
  fold_left (fun set d => set_add d set)
            (map (fun d => if d =? 7 then 0 else d) daysOfWeek) [].

(** Lines 257 to 267: everything before the clock is read. *)
Definition prepare (expr : string) : outcome Search :=
  parts <- parseCron expr ;;
  mins <- parseField (minute parts) 0 59 ;;
  hrs <- parseField (hour parts) 0 23 ;;
  doms <- parseField (dayOfMonth parts) 1 31 ;;
  mons <- parseField (month parts) 1 12 ;;
  dows <- parseField (dayOfWeek parts) 0 7 ;;
  Return (mkSearch (values mins) (values hrs) (values doms) (values mons)
            (normalizeDow (values dows))
            (String.eqb (dayOfMonth parts) "*")
            (String.eqb (dayOfWeek parts) "*")).

(** Lines 300 to 310. *)
Definition dayMatch (q : Search) (dom dow : Z) : bool :=
  if domWild q && dowWild q then true
  else if domWild q then includesZ (dowSet q) dow
  else if dowWild q then includesZ (daysOfMonth q) dom
  else includesZ (daysOfMonth q) dom || includesZ (dowSet q) dow.

(** Lines 271 to 273: the cursor the search starts from. *)
Definition startCursor (z : Zone) (now : Date) : Date :=
  let current := setSeconds z now 0 0 in
  setMinutes z current (getMinutes current + 1).

(** One round of the [while] body: the cursor and the results after it. *)
Definition iteration (z : Zone) (q : Search) (current : Date)
  (results : list Date) : Date * list Date :=
  let m := getMinutes current in
  let h := getHours current in
  let dom := getDate current in
  let mon := getMonth current + 1 in
  let dow := getDay current in
  if negb (includesZ (months q) mon) then
    let c1 := setMonth z current (getMonth current + 1) 1 in
    (setHours z c1 0 0 0 0, results)
  else if negb (includesZ (hours q) h) then
    let c1 := setHours z current (getHours current + 1) 0 0 0 in
    (setMinutes z c1 0, results)
  else if negb (dayMatch q dom dow) then
    let c1 := setDate z current (getDate current + 1) in
    (setHours z c1 0 0 0 0, results)
  else
    let results' :=
      if includesZ (minutes q) m then (results ++ [current])%list
      else results in
    (setMinutes z current (getMinutes current + 1), results').

Definition maxIterations : Z := 525960.

(** [while (results.length < count && iterations < maxIterations)]: [fuel]
    is the number of rounds [iterations] still allows. *)
Fixpoint loop (fuel : nat) (z : Zone) (q : Search) (count : Z)
  (current : Date) (results : list Date) : list Date :=
  match fuel with
  | O => results
  | S k =>
      if Z.of_nat (List.length results) <? count then
        let (current', results') := iteration z q current results in
        loop k z q count current' results'
      else results
  end.

(** [z] is the time zone of the host and [now] what the getters read from
    [new Date()]. *)
Definition getNextRuns (z : Zone) (expr : string) (count : Z) (now : Date)
  : outcome (list Date) :=
  q <- prepare expr ;;
  Return (loop (Z.to_nat maxIterations) z q count (startCursor z now) []).

(* ================================================================== *)
(** ** [formatDate] *)
(* ================================================================== *)

Fixpoint repeatString (pad : string) (n : nat) : string :=
  match n with
  | O => EmptyString
  | S k => pad ++ repeatString pad k
  end.

(** [s.padStart(n, pad)]: [s] itself when it is long enough or [pad] is
    empty, else [pad] repeated and cut to the missing length, then [s]. *)
Definition padStart (n : nat) (pad s : string) : string :=
  if (n <=? String.length s)%nat || String.eqb pad EmptyString then s
  else
    let fillLen := (n - String.length s)%nat in
    String.substring 0 fillLen (repeatString pad fillLen) ++ s.

Definition formatDate (d : Date) : string :=
  let days := ["Sun"; "Mon"; "Tue"; "Wed"; "Thu"; "Fri"; "Sat"] in
  let months :=
    ["Jan"; "Feb"; "Mar"; "Apr"; "May"; "Jun";
     "Jul"; "Aug"; "Sep"; "Oct"; "Nov"; "Dec"] in
  let day := index days (Num (getDay d)) in
  let mon := index months (Num (getMonth d)) in
  let date := getDate d in
  let year := getFullYear d in
  let hrs := padStart 2 "0" (string_of_Z (getHours d)) in
  let mins := padStart 2 "0" (string_of_Z (getMinutes d)) in
  interpolate day ++ ", " ++ interpolate mon ++ " " ++ string_of_Z date
    ++ " " ++ string_of_Z year ++ " " ++ hrs ++ ":" ++ mins.

(* ================================================================== *)
(** ** Vocabulary of the statements *)
(* ================================================================== *)

(** The integers [i, i+1, ..., i+n-1], and the interval [lo .. hi]. *)
Fixpoint upto (n : nat) (i : Z) : list Z :=
  match n with
  | O => []
  | S k => i :: upto k (i + 1)
  end.

Definition interval (lo hi : Z) : list Z := upto (Z.to_nat (hi - lo + 1)) lo.

(** A text free of the three separators of the field grammar. *)
Definition atom (s : string) : Prop :=
  includes ","%char s = false /\ includes "/"%char s = false
  /\ includes "-"%char s = false.

(** The five grammar checks of an expression, in the order they run. *)
Definition fieldChecks (parts : CronParts) : list (outcome ParsedField) :=
  [ parseField (minute parts) 0 59;
    parseField (hour parts) 0 23;
    parseField (dayOfMonth parts) 1 31;
    parseField (month parts) 1 12;
    parseField (dayOfWeek parts) 0 7 ].

(** A stepped term [A-B/S] or [A/S] whose step is a positive integer and
    whose base has a bound that converts to [NaN]. *)
Inductive nonNumericStep : string -> Prop :=
| nns_range (a b s : string) (na nb : num) (st : Z) :
    atom a -> atom b -> atom s ->
    parseInt10 s = Return (Num st) -> 0 < st ->
    Number a = Return na -> Number b = Return nb ->
    isNaN na || isNaN nb = true ->
    nonNumericStep (a ++ "-" ++ b ++ "/" ++ s)
| nns_single (a s : string) (st : Z) :
    atom a -> atom s -> a <> "*" ->
    parseInt10 s = Return (Num st) -> 0 < st ->
    parseInt10 a = Return NaN ->
    nonNumericStep (a ++ "/" ++ s).

(** Dates as [new Date()] and the setters produce them: every field in
    its calendar range. *)
Definition wf_day (d : Day) : Prop :=
  let '(y, m, dd) := d in 0 <= m <= 11 /\ 1 <= dd <= daysInMonth y m.

Definition wf_date (t : Date) : Prop :=
  wf_day (getFullYear t, getMonth t, getDate t)
  /\ 0 <= getHours t < 24 /\ 0 <= getMinutes t < 60
  /\ 0 <= getSeconds t < 60 /\ 0 <= getMilliseconds t < 1000.

(** The time of day, below one day for a well-formed date. *)
Definition timeOfDay (t : Date) : Z :=
  getHours t * 3600000 + getMinutes t * 60000 + getSeconds t * 1000
  + getMilliseconds t.

(** The test a cursor passes when the loop records it. *)
Definition matches (q : Search) (t : Date) : bool :=
  includesZ (months q) (getMonth t + 1)
  && includesZ (hours q) (getHours t)
  && dayMatch q (getDate t) (getDay t)
  && includesZ (minutes q) (getMinutes t).

(** Order of two dates by their local time values, and chronological
    order of the instants they denote on a host. *)
Definition earlier (a b : Date) : Prop := localValue a < localValue b.

Definition before (z : Zone) (a b : Date) : Prop := getTime z a < getTime z b.

(** A zone whose two offsets are one constant, such as UTC. *)
Definition constant_zone (z : Zone) : Prop :=
  exists c, forall t, localTZA_utc z t = c /\ localTZA_local z t = c.

(** A zone whose offsets differ by whole minutes. *)
Definition whole_minutes (z : Zone) : Prop :=
  forall a b, (localTZA_utc z a - localTZA_local z b) mod 60000 = 0.

(** [now] is what the getters read at the instant [clock]. *)
Definition reads (z : Zone) (clock : Z) (now : Date) : Prop :=
  wf_date now /\ localValue now = LocalTime z clock.

(** The fields of [t] are what the getters read at some instant. *)
Definition read_back (z : Zone) (t : Date) : Prop :=
  exists u, localValue t = LocalTime z u.

(** A zone in which reading back the instant of a local time value never
    gives an earlier local time (a skipped local time is read later), gives
    the same instant again, and in which a local time value after one that
    the getters read denotes a later instant.  Constant offsets are of
    this kind, and so is [fallBackZone] below. *)
Definition orderly (z : Zone) : Prop :=
  (forall tlocal, tlocal <= LocalTime z (UTC z tlocal))
  /\ (forall tlocal, UTC z (LocalTime z (UTC z tlocal)) = UTC z tlocal)
  /\ (forall u tlocal,
         LocalTime z u < tlocal -> UTC z (LocalTime z u) < UTC z tlocal).

(** A host that leaves daylight saving time on 1 November 2026 at 06:00
    UTC, as New York does: four hours behind UTC before, five hours after.
    The local times from 01:00 to 01:59 of that day occur twice, and are
    read with the offset before the transition. *)
Definition fallBackZone : Zone :=
  mkZone
    (fun t => if t <? localValue (mkDate 2026 10 1 6 0 0 0)
              then -14400000 else -18000000)
    (fun tlocal => if tlocal <? localValue (mkDate 2026 10 1 2 0 0 0)
                   then -14400000 else -18000000).

(** The instant 06:30:15 UTC of that day, in the second 01:30 of the
    host, and what the getters read at it. *)
Definition fallBackClock : Z := localValue (mkDate 2026 10 1 6 30 15 0).

Definition fallBackNow : Date := mkDate 2026 10 1 1 30 15 0.

(** What the loop keeps true of the instants of its cursor and results. *)
Record chrono_inv (z : Zone) (start cur : Date) (res : list Date)
  : Prop := mkChronoInv {
  chrono_wf : wf_date cur;
  chrono_read : read_back z cur;
  chrono_start : getTime z start <= getTime z cur;
  chrono_res :
    Forall (fun r => getTime z start <= getTime z r < getTime z cur) res;
  chrono_sorted : StronglySorted (before z) res
}.

(** What the loop keeps true of its cursor and results. *)
Record loop_inv (q : Search) (count : Z) (start cur : Date)
  (res : list Date) : Prop := mkLoopInv {
  inv_wf : wf_date cur;
  inv_start : localValue start <= localValue cur;
  inv_res :
    Forall (fun r => wf_date r /\ matches q r = true
                     /\ localValue start <= localValue r
                     /\ localValue r < localValue cur) res;
  inv_sorted : StronglySorted earlier res;
  inv_count : Z.of_nat (List.length res) <= Z.max 0 count
}.

(** What a term does to the value set, apart from the set itself: a loop
    from one number to another by a positive step, or one value added. *)
Inductive effect : Type :=
| Loop (a b : num) (st : Z)
| Add (z : Z).

Definition runEffect (e : effect) (vs : list Z) : list Z :=
  match e with
  | Loop a b st => for_loop a b st vs
  | Add z => set_add z vs
  end.

Definition termEffect (part : string) (min max : Z) : outcome effect :=
  if String.eqb part "*" then Return (Loop (Num min) (Num max) 1)
  else if includes "/"%char part then
    let (range, stepStr) := first_two (split "/"%char part) in
    step <- parseInt10 stepStr ;;
    match step with
    | NaN => Throw (InvalidStep part)
    | Num st =>
        if st <=? 0 then Throw (InvalidStep part)
        else if String.eqb range "*" then Return (Loop (Num min) (Num max) st)
        else if includes "-"%char range then
          let (a, b) := first_two (split "-"%char range) in
          start <- Number a ;;
          e <- Number b ;;
          Return (Loop start e st)
        else
          start <- parseInt10 range ;;
          Return (Loop start (Num max) st)
    end
  else if includes "-"%char part then
    let (a, b) := first_two (split "-"%char part) in
    na <- Number a ;;
    nb <- Number b ;;
    if isNaN na || isNaN nb then Throw (InvalidRange part)
    else Return (Loop na nb 1)
  else
    n <- parseInt10 part ;;
    match n with
    | NaN => Throw (InvalidValue part)
    | Num z => Return (Add z)
    end.

(** The effects of a list of terms, in order, and the values an effect
    puts into the set. *)
Fixpoint termEffects (parts : list string) (min max : Z)
  : outcome (list effect) :=
  match parts with
  | [] => Return []
  | part :: rest =>
      e <- termEffect part min max ;;
      es <- termEffects rest min max ;;
      Return (e :: es)
  end.

Definition contributes (e : effect) (v : Z) : Prop :=
  match e with
  | Loop (Num i) (Num j) st => i <= v <= j /\ (v - i) mod st = 0
  | Loop _ _ _ => False
  | Add z => v = z
  end.

Definition positive_step (e : effect) : Prop :=
  match e with
  | Loop _ _ st => 0 < st
  | Add _ => True
  end.

(** A date on a whole minute. *)
Definition aligned (t : Date) : Prop :=
  getSeconds t = 0 /\ getMilliseconds t = 0.

(** A computation that may return or be outside the model, but not throw. *)
Definition never_throws {A : Type} (m : outcome A) : Prop :=
  forall e, m <> Throw e.

(** The calendar day of a date. *)
Definition dayOf (t : Date) : Day := (getFullYear t, getMonth t, getDate t).

Definition is_lower (c : ascii) : bool :=
  let n := code c in ((97 <=? n) && (n <=? 122))%N.

Definition is_letter (c : ascii) : bool := is_upper c || is_lower c.

Fixpoint no_letters (s : string) : bool :=
  match s with
  | EmptyString => true
  | String c r => negb (is_letter c) && no_letters r
  end.

Fixpoint no_ws (s : string) : bool :=
  match s with
  | EmptyString => true
  | String c r => negb (is_ws c) && no_ws r
  end.

(** The text in upper case, for ASCII letters. *)
Fixpoint toUpperCase (s : string) : string :=
  match s with
  | EmptyString => EmptyString
  | String c r =>
      String (if is_lower c then ascii_of_N (code c - 32) else c) (toUpperCase r)
  end.

(** A field as it stands in an expression: ASCII, not empty, no
    whitespace. *)
Definition field_token (s : string) : Prop :=
  s <> EmptyString /\ no_ws s = true /\ ascii_only s = true.

(** The two decimal digits of a number below 100. *)
Definition two_digits (k : Z) : string :=
  String (ascii_of_N (Z.to_N (48 + k / 10)))
    (String (ascii_of_N (Z.to_N (48 + k mod 10))) EmptyString).

(* ================================================================== *)
(** ** Facts about the string built-ins *)
(* ================================================================== *)

Section StringFacts.

Variable c : ascii.

Lemma includes_app (a b : string) :
  includes c (a ++ b) = includes c a || includes c b.
Proof.
  induction a as [|d a IH]; simpl; [reflexivity|].
  rewrite IH. apply orb_assoc.
Qed.

Lemma split_no_sep (s : string) :
  includes c s = false -> split c s = [s].
Proof.
  induction s as [|d s IH]; simpl; intros H; [reflexivity|].
  apply orb_false_iff in H as [Hd Hs].
  rewrite Hd, (IH Hs). reflexivity.
Qed.

Lemma split_app_sep (a b : string) :
  includes c a = false -> split c (a ++ String c b) = a :: split c b.
Proof.
  induction a as [|d a IH]; simpl; intros H.
  - rewrite Ascii.eqb_refl. reflexivity.
  - apply orb_false_iff in H as [Hd Ha].
    rewrite Hd, (IH Ha). reflexivity.
Qed.

Lemma includes_sep_mid (a b : string) : includes c (a ++ String c b) = true.
Proof.
  rewrite includes_app. simpl. rewrite Ascii.eqb_refl.
  apply orb_true_iff. right. reflexivity.
Qed.

End StringFacts.

Lemma eqb_star_false (s : string) (c : ascii) :
  includes c s = true -> includes c "*" = false -> String.eqb s "*" = false.
Proof.
  intros Hs Hstar. destruct (String.eqb_spec s "*") as [->|]; [|reflexivity].
  congruence.
Qed.

(* ================================================================== *)
(** ** Facts about the value set and its sorting *)
(* ================================================================== *)

Lemma includesZ_In (xs : list Z) (v : Z) : includesZ xs v = true <-> In v xs.
Proof.
  unfold includesZ. rewrite existsb_exists. split.
  - intros [x [Hin Heq]]. apply Z.eqb_eq in Heq. subst. exact Hin.
  - intros Hin. exists v. split; [exact Hin | apply Z.eqb_refl].
Qed.

Lemma set_add_In (i : Z) (vs : list Z) (v : Z) :
  In v (set_add i vs) <-> v = i \/ In v vs.
Proof.
  unfold set_add. destruct (existsb (Z.eqb i) vs) eqn:E.
  - split; [tauto|]. intros [->|H]; [|exact H].
    now apply includesZ_In.
  - rewrite in_app_iff. simpl. intuition.
Qed.

Lemma set_add_fresh (i : Z) (vs : list Z) :
  (forall v, In v vs -> v < i) -> set_add i vs = (vs ++ [i])%list.
Proof.
  intros H. unfold set_add.
  destruct (existsb (Z.eqb i) vs) eqn:E; [|reflexivity].
  apply (includesZ_In vs i) in E. apply H in E. lia.
Qed.

Lemma upto_In (n : nat) (i v : Z) :
  In v (upto n i) <-> i <= v < i + Z.of_nat n.
Proof.
  revert i. induction n as [|n IH]; intros i; simpl upto.
  - simpl. lia.
  - simpl In. rewrite IH. lia.
Qed.

Lemma upto_sorted (n : nat) (i : Z) : StronglySorted Z.lt (upto n i).
Proof.
  revert i. induction n as [|n IH]; intros i; simpl; constructor.
  - apply IH.
  - apply Forall_forall. intros v Hv. apply upto_In in Hv. lia.
Qed.

Lemma interval_In (lo hi v : Z) : In v (interval lo hi) <-> lo <= v <= hi.
Proof. unfold interval. rewrite upto_In. lia. Qed.

(** With step 1 and a set whose members are all below [i], the loop
    appends the interval. *)
Lemma for_add_fresh (n : nat) :
  forall (i e : Z) (vs : list Z),
    (forall v, In v vs -> v < i) -> Z.to_nat (e - i + 1) = n ->
    for_add n i e 1 vs = (vs ++ upto n i)%list.
Proof.
  induction n as [|n IH]; intros i e vs Hlt Hn; simpl.
  - now rewrite app_nil_r.
  - assert (Hie : (i <=? e) = true) by (apply Z.leb_le; lia).
    rewrite Hie, (set_add_fresh i vs Hlt), IH.
    + now rewrite <- app_assoc.
    + intros v Hv. apply in_app_iff in Hv as [Hv|[<-|[]]]; [apply Hlt in Hv|]; lia.
    + lia.
Qed.

(** The trip count [e - i + 1] never cuts the loop short: more fuel
    changes nothing as long as the step is positive. *)
Lemma for_add_enough (n : nat) :
  forall (m : nat) (i e step : Z) (vs : list Z),
    0 < step -> (Z.to_nat (e - i + 1) <= n)%nat -> (n <= m)%nat ->
    for_add m i e step vs = for_add n i e step vs.
Proof.
  induction n as [|n IH]; intros m i e step vs Hst Hn Hm.
  - destruct m as [|m]; simpl; [reflexivity|].
    assert (Hie : (i <=? e) = false) by (apply Z.leb_gt; lia).
    now rewrite Hie.
  - destruct m as [|m]; [lia|]. simpl.
    destruct (i <=? e) eqn:Hie; [|reflexivity].
    apply IH; lia.
Qed.

Lemma insert_sorted_In (x : Z) (l : list Z) (v : Z) :
  In v (insert_sorted x l) <-> v = x \/ In v l.
Proof.
  induction l as [|y l IH]; simpl.
  - intuition.
  - destruct (x <=? y); simpl; rewrite ?IH; intuition.
Qed.

Lemma sort_In (l : list Z) (v : Z) : In v (sort l) <-> In v l.
Proof.
  induction l as [|x l IH]; simpl; [tauto|].
  rewrite insert_sorted_In, IH. intuition.
Qed.

Lemma insert_sorted_sorted (x : Z) (l : list Z) :
  StronglySorted Z.le l -> StronglySorted Z.le (insert_sorted x l).
Proof.
  induction 1 as [|y l Hl IH Hy]; simpl.
  - repeat constructor.
  - destruct (x <=? y) eqn:E.
    + apply Z.leb_le in E. constructor; [now constructor|].
      constructor; [exact E|].
      rewrite Forall_forall in *. intros v Hv. specialize (Hy v Hv). lia.
    + apply Z.leb_gt in E. constructor; [exact IH|].
      rewrite Forall_forall in *. intros v Hv.
      apply insert_sorted_In in Hv as [->|Hv]; [lia | now apply Hy].
Qed.

Lemma sort_sorted (l : list Z) : StronglySorted Z.le (sort l).
Proof.
  induction l as [|x l IH]; simpl; [constructor | now apply insert_sorted_sorted].
Qed.

Lemma sort_id (l : list Z) : StronglySorted Z.lt l -> sort l = l.
Proof.
  induction 1 as [|x l Hl IH Hx]; simpl; [reflexivity|].
  rewrite IH. destruct l as [|y l]; simpl; [reflexivity|].
  apply Forall_inv in Hx.
  assert (E : (x <=? y) = true) by (apply Z.leb_le; lia).
  now rewrite E.
Qed.

(** On a sorted array, the first element a test accepts is the least one. *)
Lemma find_sorted_least (p : Z -> bool) (l : list Z) (v : Z) :
  StronglySorted Z.le l -> find p l = Some v ->
  In v l /\ p v = true /\ forall w, In w l -> p w = true -> v <= w.
Proof.
  induction 1 as [|x l Hl IH Hx]; simpl; [discriminate|].
  destruct (p x) eqn:Epx; intros Hf.
  - injection Hf as <-. split; [now left|]. split; [exact Epx|].
    intros w [<-|Hw] _; [lia|].
    rewrite Forall_forall in Hx. now apply Hx.
  - destruct (IH Hf) as (Hin & Hp & Hleast).
    split; [now right|]. split; [exact Hp|].
    intros w [<-|Hw] Hpw; [congruence | now apply Hleast].
Qed.

Lemma find_none_iff (p : Z -> bool) (l : list Z) :
  find p l = None <-> forall w, In w l -> p w = false.
Proof.
  induction l as [|x l IH]; simpl.
  - split; [intros _ w [] | reflexivity].
  - destruct (p x) eqn:Epx.
    + split; [discriminate|]. intros H. specialize (H x (or_introl eq_refl)). congruence.
    + rewrite IH. split.
      * intros H w [<-|Hw]; [exact Epx | now apply H].
      * intros H w Hw. apply H. now right.
Qed.

Lemma out_of_range_true (min max v : Z) :
  out_of_range min max v = true <-> v < min \/ max < v.
Proof. unfold out_of_range. rewrite orb_true_iff, !Z.ltb_lt. tauto. Qed.

(* ================================================================== *)
(** ** [parseField]: the wildcard and the range check *)
(* ================================================================== *)

(** C5.  For all bounds (in particular for [min <= max]),
    [parseField("*", min, max)] succeeds; its values are exactly the
    integers from [min] to [max], in ascending order without duplicates. *)
Theorem parseField_star_interval (min max : Z) :
  parseField "*" min max = Return (mkParsedField (interval min max) "*")
  /\ (forall v, In v (interval min max) <-> min <= v <= max)
  /\ StronglySorted Z.lt (interval min max).
Proof.
  split; [|split].
  - unfold parseField. simpl. unfold interval.
    rewrite (for_add_fresh _ min max []); [|intros v []|reflexivity].
    simpl. rewrite sort_id by apply upto_sorted.
    assert (Hnone : find (out_of_range min max)
                      (upto (Z.to_nat (max - min + 1)) min) = None).
    { apply find_none_iff. intros w Hw. apply upto_In in Hw.
      destruct (out_of_range min max w) eqn:E; [|reflexivity].
      apply out_of_range_true in E. lia. }
    now rewrite Hnone.
  - intros v. apply interval_In.
  - apply upto_sorted.
Qed.

(** C3.  When the terms of a field evaluate to the value set [vs] and some
    value of [vs] lies outside [min .. max], [parseField] throws the
    out-of-range error that names the least such value together with [min]
    and [max]; and [parseField("25", 0, 23)] throws it for 25, with the
    message [Value 25 out of range [0-23]]. *)
Theorem parseField_out_of_range :
  (forall (raw : string) (min max : Z) (vs : list Z),
      parseTerms (split ","%char raw) min max [] = Return vs ->
      (exists w, In w vs /\ (w < min \/ max < w)) ->
      exists v,
        parseField raw min max = Throw (OutOfRange v min max)
        /\ In v vs /\ (v < min \/ max < v)
        /\ forall w, In w vs -> (w < min \/ max < w) -> v <= w)
  /\ parseField "25" 0 23 = Throw (OutOfRange 25 0 23)
  /\ message (OutOfRange 25 0 23) = "Value 25 out of range [0-23]".
Proof.
  split; [|split; reflexivity].
  intros raw min max vs Hterms [w [Hw Hout]].
  unfold parseField. rewrite Hterms. simpl.
  destruct (find (out_of_range min max) (sort vs)) as [v|] eqn:Hfind.
  - exists v. destruct (find_sorted_least _ _ _ (sort_sorted vs) Hfind)
      as (Hin & Hp & Hleast).
    split; [reflexivity|]. split; [now apply sort_In|].
    split; [now apply out_of_range_true|].
    intros u Hu Huout. apply Hleast; [now apply sort_In | now apply out_of_range_true].
  - exfalso. rewrite find_none_iff in Hfind.
    specialize (Hfind w (proj2 (sort_In vs w) Hw)).
    apply out_of_range_true in Hout. congruence.
Qed.

Lemma parseField_out_of_range_witness :
  exists v,
    parseField "70,3,65" 0 59 = Throw (OutOfRange v 0 59)
    /\ In v [70; 3; 65] /\ (v < 0 \/ 59 < v)
    /\ forall w, In w [70; 3; 65] -> (w < 0 \/ 59 < w) -> v <= w.
Proof.
  apply (proj1 parseField_out_of_range "70,3,65" 0 59 [70; 3; 65]).
  - reflexivity.
  - exists 70. split; [simpl; tauto | lia].
Defined.

(* ================================================================== *)
(** ** [parseField]: terms that contribute nothing *)
(* ================================================================== *)

Lemma append_assoc (a b c : string) : (a ++ b) ++ c = a ++ b ++ c.
Proof. induction a as [|d a IH]; simpl; [reflexivity | now rewrite IH]. Qed.

Lemma atom_comma (s : string) : atom s -> includes ","%char s = false.
Proof. now intros (H & _ & _). Qed.

Lemma atom_slash (s : string) : atom s -> includes "/"%char s = false.
Proof. now intros (_ & H & _). Qed.

Lemma atom_dash (s : string) : atom s -> includes "-"%char s = false.
Proof. now intros (_ & _ & H). Qed.

(** Rewrites [includes] through concatenations of atoms. *)
Ltac includes_atoms :=
  repeat match goal with
         | H : atom ?s |- _ =>
             lazymatch goal with
             | _ : includes ","%char s = false |- _ => fail
             | _ => pose proof (atom_comma s H); pose proof (atom_slash s H);
                    pose proof (atom_dash s H)
             end
         end;
  repeat (rewrite includes_app; simpl);
  repeat match goal with
         | H : includes _ _ = false |- _ => rewrite H
         end;
  simpl.

(** A field that is one term is split into that term alone. *)
Lemma parseField_single_term (raw : string) (min max : Z) :
  includes ","%char raw = false ->
  (forall vs, parseTerm raw min max vs = Return vs) ->
  parseField raw min max = Return (mkParsedField [] raw).
Proof.
  intros Hc Hterm. unfold parseField.
  rewrite (split_no_sep _ _ Hc). simpl. rewrite Hterm. reflexivity.
Qed.

Lemma parseTerms_silent (parts : list string) (min max : Z) (vs : list Z) :
  Forall (fun p => forall us, parseTerm p min max us = Return us) parts ->
  parseTerms parts min max vs = Return vs.
Proof.
  induction 1 as [|p parts Hp _ IH]; simpl; [reflexivity|].
  rewrite Hp. exact IH.
Qed.

Lemma descending_term (a b : string) (x y min max : Z) (vs : list Z) :
  atom a -> atom b ->
  Number a = Return (Num x) -> Number b = Return (Num y) -> y < x ->
  parseTerm (a ++ "-" ++ b) min max vs = Return vs.
Proof.
  intros Ha Hb Hx Hy Hlt. unfold parseTerm. simpl append.
  rewrite (eqb_star_false _ "-"%char) by (apply includes_sep_mid || reflexivity).
  assert (Hs : includes "/"%char (a ++ String "-" b) = false) by now includes_atoms.
  rewrite Hs, includes_sep_mid, split_app_sep by now apply atom_dash.
  rewrite (split_no_sep _ b) by now apply atom_dash.
  simpl. rewrite Hx. simpl. rewrite Hy. simpl.
  replace (Z.to_nat (y - x + 1)) with O by lia. reflexivity.
Qed.

(** C9.  A range term [A-B] whose bounds are numbers with [A > B] raises
    no error and leaves the value set as it was; a field that consists of
    that term alone parses to the empty set, as [parseField("5-1", 0, 59)]
    does. *)
Theorem parseField_descending_range :
  forall (a b : string) (x y min max : Z),
    atom a -> atom b ->
    Number a = Return (Num x) -> Number b = Return (Num y) -> y < x ->
    (forall vs, parseTerm (a ++ "-" ++ b) min max vs = Return vs)
    /\ parseField (a ++ "-" ++ b) min max
       = Return (mkParsedField [] (a ++ "-" ++ b)).
Proof.
  intros a b x y min max Ha Hb Hx Hy Hlt.
  assert (Hterm : forall vs, parseTerm (a ++ "-" ++ b) min max vs = Return vs)
    by (intros vs; now apply (descending_term a b x y)).
  split; [exact Hterm|].
  apply parseField_single_term; [|exact Hterm].
  now includes_atoms.
Qed.

Lemma parseField_descending_range_witness :
  (forall vs, parseTerm "5-1" 0 59 vs = Return vs)
  /\ parseField "5-1" 0 59 = Return (mkParsedField [] "5-1").
Proof.
  apply (parseField_descending_range "5" "1" 5 1 0 59);
    solve [repeat split | reflexivity | lia].
Defined.

Lemma nonNumericStep_term (part : string) (min max : Z) (vs : list Z) :
  nonNumericStep part -> parseTerm part min max vs = Return vs.
Proof.
  intros [a b s na nb st Ha Hb Hs Hst Hpos Hna Hnb Hnan
         | a s st Ha Hs Hstar Hst Hpos Hna].
  - unfold parseTerm.
    rewrite (eqb_star_false _ "-"%char)
      by (simpl append; apply includes_sep_mid || reflexivity).
    replace (a ++ "-" ++ b ++ "/" ++ s) with ((a ++ String "-" b) ++ String "/" s)
      by (rewrite append_assoc; reflexivity).
    assert (Hr : includes "/"%char (a ++ String "-" b) = false) by now includes_atoms.
    rewrite includes_sep_mid, (split_app_sep _ _ _ Hr).
    rewrite (split_no_sep _ s) by now apply atom_slash.
    simpl. rewrite Hst. simpl.
    assert (Hst0 : (st <=? 0) = false) by (apply Z.leb_gt; lia).
    rewrite Hst0.
    rewrite (eqb_star_false _ "-"%char) by (apply includes_sep_mid || reflexivity).
    rewrite includes_sep_mid, split_app_sep by now apply atom_dash.
    rewrite (split_no_sep _ b) by now apply atom_dash.
    simpl. rewrite Hna. simpl. rewrite Hnb. simpl.
    destruct na, nb; simpl in *; try reflexivity; discriminate.
  - unfold parseTerm. simpl append.
    rewrite (eqb_star_false _ "/"%char) by (apply includes_sep_mid || reflexivity).
    rewrite includes_sep_mid, split_app_sep by now apply atom_slash.
    rewrite (split_no_sep _ s) by now apply atom_slash.
    simpl. rewrite Hst. simpl.
    assert (Hst0 : (st <=? 0) = false) by (apply Z.leb_gt; lia).
    rewrite Hst0.
    apply String.eqb_neq in Hstar. rewrite Hstar.
    rewrite (atom_dash a Ha), Hna. reflexivity.
Qed.

(** C10.  A stepped term [A-B/S] or [A/S] with a positive step whose base
    has a bound that is not a number raises no error and leaves the value
    set as it was; a field made only of such terms parses to the empty
    set, as ["x-y/2"] and ["x/2"] do, and an expression with such fields
    passes validation. *)
Theorem parseField_non_numeric_step :
  (forall (part : string) (min max : Z) (vs : list Z),
      nonNumericStep part -> parseTerm part min max vs = Return vs)
  /\ (forall (raw : string) (min max : Z),
         Forall nonNumericStep (split ","%char raw) ->
         parseField raw min max = Return (mkParsedField [] raw))
  /\ parseField "x-y/2" 0 59 = Return (mkParsedField [] "x-y/2")
  /\ parseField "x/2" 0 59 = Return (mkParsedField [] "x/2")
  /\ validateCron "x/2 x-y/2,z/3 * * *" = Return (mkValidation true None).
Proof.
  split; [|split; [|repeat split; reflexivity]].
  - intros part min max vs H. now apply nonNumericStep_term.
  - intros raw min max H. unfold parseField.
    rewrite parseTerms_silent; [reflexivity|].
    eapply Forall_impl; [|exact H].
    intros p Hp us. now apply nonNumericStep_term.
Qed.

Lemma parseField_non_numeric_step_witness :
  nonNumericStep "x-y/2"
  /\ parseTerm "x-y/2" 0 59 [7] = Return [7]
  /\ Forall nonNumericStep (split ","%char "x-y/2,q/3")
  /\ parseField "x-y/2,q/3" 0 59 = Return (mkParsedField [] "x-y/2,q/3").
Proof.
  assert (H1 : nonNumericStep "x-y/2").
  { apply (nns_range "x" "y" "2" NaN NaN 2);
      solve [repeat split | reflexivity | lia]. }
  assert (H2 : nonNumericStep "q/3").
  { apply (nns_single "q" "3" 3);
      solve [repeat split | reflexivity | lia | discriminate]. }
  split; [exact H1|].
  split; [exact (proj1 parseField_non_numeric_step "x-y/2" 0 59 [7] H1)|].
  assert (H3 : Forall nonNumericStep (split ","%char "x-y/2,q/3"))
    by (simpl; repeat constructor; assumption).
  split; [exact H3|].
  exact (proj1 (proj2 parseField_non_numeric_step) "x-y/2,q/3" 0 59 H3).
Defined.

(* ================================================================== *)
(** ** [validateCron] *)
(* ================================================================== *)

Lemma validateCron_checks (expr : string) (parts : CronParts) :
  parseCron expr = Return parts ->
  validateCron expr =
  match fieldChecks parts with
  | [c0; c1; c2; c3; c4] =>
      match (_ <- c0 ;; _ <- c1 ;; _ <- c2 ;; _ <- c3 ;; _ <- c4 ;; Return tt) with
      | Return _ => Return (mkValidation true None)
      | Throw e => Return (mkValidation false (Some (message e)))
      | Unmodelled => Unmodelled
      end
  | _ => Unmodelled
  end.
Proof.
  intros H. unfold validateCron, validateCron_try. rewrite H. reflexivity.
Qed.

(** C4.  [validateCron] checks minute, hour, day of month, month and day of
    week in that order.  When a field throws and the fields to its left
    parse, the result is [{valid: false}] with that field's message,
    whatever the fields to its right are; the result is [{valid: true}]
    exactly when all five fields parse; and a result is always one of these
    two shapes.  An expression that is not five fields is reported the same
    way, with the field-count message. *)
Theorem validateCron_first_error (expr : string) :
  (forall e, parseCron expr = Throw e ->
             validateCron expr = Return (mkValidation false (Some (message e))))
  /\ (forall parts, parseCron expr = Return parts ->
        (forall ok e later,
            fieldChecks parts = (ok ++ Throw e :: later)%list ->
            Forall (fun r => returns r = true) ok ->
            validateCron expr = Return (mkValidation false (Some (message e))))
        /\ (validateCron expr = Return (mkValidation true None)
            <-> Forall (fun r => returns r = true) (fieldChecks parts)))
  /\ (forall v, validateCron expr = Return v ->
                v = mkValidation true None
                \/ exists e, v = mkValidation false (Some (message e))).
Proof.
  split; [|split].
  - intros e H. unfold validateCron, validateCron_try. rewrite H. reflexivity.
  - intros parts H. rewrite (validateCron_checks expr parts H).
    unfold fieldChecks.
    set (c0 := parseField (minute parts) 0 59).
    set (c1 := parseField (hour parts) 0 23).
    set (c2 := parseField (dayOfMonth parts) 1 31).
    set (c3 := parseField (month parts) 1 12).
    set (c4 := parseField (dayOfWeek parts) 0 7).
    clearbody c0 c1 c2 c3 c4. split.
    + intros ok e later Heq Hok.
      destruct ok as [|r0 [|r1 [|r2 [|r3 [|r4 ok]]]]]; simpl in Heq;
        inversion Heq; subst;
        repeat match goal with
               | H : Forall _ (_ :: _) |- _ => inversion H; subst; clear H
               end;
        repeat match goal with
               | H : returns ?r = true |- _ => destruct r; [clear H|discriminate H..]
               end;
        try reflexivity.
      destruct ok; discriminate.
    + split.
      * intros Hv.
        destruct c0; try discriminate; destruct c1; try discriminate;
          destruct c2; try discriminate; destruct c3; try discriminate;
          destruct c4; try discriminate.
        repeat constructor.
      * intros Hall.
        repeat match goal with
               | H : Forall _ (_ :: _) |- _ => inversion H; subst; clear H
               end;
        repeat match goal with
               | H : returns ?r = true |- _ => destruct r; [clear H|discriminate H..]
               end.
        reflexivity.
  - intros v. unfold validateCron.
    destruct (validateCron_try expr) as [u|e|]; intros Hv; try discriminate;
      injection Hv as <-; [now left | right; now exists e].
Qed.

Lemma validateCron_first_error_witness :
  validateCron "0 25 * 13 *"
  = Return (mkValidation false (Some "Value 25 out of range [0-23]"))
  /\ validateCron "* * * *"
     = Return (mkValidation false
                 (Some "Expected 5 fields (minute hour day month weekday), got 4")).
Proof.
  split.
  - set (parts := mkCronParts "0" "25" "*" "13" "*").
    apply (proj1 (proj1 (proj2 (validateCron_first_error "0 25 * 13 *"))
                    parts eq_refl)
             [parseField "0" 0 59] (OutOfRange 25 0 23)
             [parseField "*" 1 31; parseField "13" 1 12; parseField "*" 0 7]).
    + reflexivity.
    + repeat constructor.
  - apply (proj1 (validateCron_first_error "* * * *") (FieldCount 4)).
    reflexivity.
Defined.

(* ================================================================== *)
(** ** [explainCron]: hours and day names *)
(* ================================================================== *)

(** The 12-hour rendering of each single hour of the day. *)
Lemma explainHour_singletons :
  map (fun n => explainHour (string_of_Z n)) (interval 0 23)
  = map Return
      [ "12:00 AM"; "1:00 AM"; "2:00 AM"; "3:00 AM"; "4:00 AM"; "5:00 AM";
        "6:00 AM"; "7:00 AM"; "8:00 AM"; "9:00 AM"; "10:00 AM"; "11:00 AM";
        "12:00 PM"; "1:00 PM"; "2:00 PM"; "3:00 PM"; "4:00 PM"; "5:00 PM";
        "6:00 PM"; "7:00 PM"; "8:00 PM"; "9:00 PM"; "10:00 PM"; "11:00 PM" ].
Proof. vm_compute. reflexivity. Qed.

(** Terms with a dash are handed back as written. *)
Lemma explainHour_dash (h : string) :
  includes "-"%char h = true -> explainHour h = Return h.
Proof. intros H. unfold explainHour. now rewrite H. Qed.

(** C7.  In the hour clause a step term without a dash is not handed back
    as written: ["8/2"] is rendered as the single hour 8 and ["*/2"] inside
    a list as [NaN:00 AM]; only terms with a dash, such as ["8-18/2"], keep
    their text. *)
Theorem explainCron_hour_step_terms :
  explainCron "0 1,*/2 * * *" = Return "at minute 0 at 1:00 AM, NaN:00 AM"
  /\ explainCron "0 8/2 * * *" = Return "at minute 0 at 8:00 AM"
  /\ explainCron "0 8-18/2 * * *" = Return "at minute 0 at 8-18/2"
  /\ explainCron "8/2 0 * * *"
     = Return "at minute every 2 starting at 8 at 12:00 AM".
Proof. repeat split; vm_compute; reflexivity. Qed.

(** C8.  In the day-of-week clause a single 7 falls back to its numeral,
    but a 7 that ends a range, ends a stepped range or starts a step is
    looked up in the seven-entry table and printed as [undefined]. *)
Theorem explainCron_day_seven :
  explainCron "0 0 * * 7" = Return "at minute 0 at 12:00 AM on 7"
  /\ explainCron "0 0 * * 1-7"
     = Return "at minute 0 at 12:00 AM on Monday through undefined"
  /\ explainCron "0 0 * * 5-7/2"
     = Return "at minute 0 at 12:00 AM on every 2 from Friday through undefined"
  /\ explainCron "0 0 * * 7/1"
     = Return "at minute 0 at 12:00 AM on every 1 starting at undefined".
Proof. repeat split; vm_compute; reflexivity. Qed.

(* ================================================================== *)
(** ** The scheduler: day matching and Sunday as 7 *)
(* ================================================================== *)

Lemma fold_set_add_In (l acc : list Z) (v : Z) :
  In v (fold_left (fun set d => set_add d set) l acc) <-> In v l \/ In v acc.
Proof.
  revert acc. induction l as [|x l IH]; intros acc; simpl; [tauto|].
  rewrite IH, set_add_In. intuition.
Qed.

Lemma normalizeDow_In (vs : list Z) (v : Z) :
  In v (normalizeDow vs) <-> (v <> 7 /\ In v vs) \/ (v = 0 /\ In 7 vs).
Proof.
  unfold normalizeDow. rewrite fold_set_add_In, in_map_iff. simpl. split.
  - intros [[d [Hd Hin]]|[]].
    destruct (Z.eqb_spec d 7) as [E|Hne]; subst; [right | left]; auto.
  - intros [[Hne Hin]|[-> Hin]]; left.
    + exists v. split; [|exact Hin].
      destruct (Z.eqb_spec v 7); [contradiction | reflexivity].
    + exists 7. split; [reflexivity | exact Hin].
Qed.

(** C1.  The flags of the search are the tests of the raw day-of-month and
    day-of-week texts against ["*"]; with both texts ["*"] every day
    matches; with only day of month ["*"] a day matches exactly when its
    weekday is in the day-of-week set; with only day of week ["*"] exactly
    when its day of the month is in the day-of-month set; with neither,
    exactly when one or the other holds. *)
Theorem dayMatch_disjunction
  (expr : string) (parts : CronParts) (q : Search) (dom dow : Z) :
  parseCron expr = Return parts ->
  prepare expr = Return q ->
  (exists doms dows,
      parseField (dayOfMonth parts) 1 31 = Return doms
      /\ parseField (dayOfWeek parts) 0 7 = Return dows
      /\ daysOfMonth q = values doms
      /\ dowSet q = normalizeDow (values dows))
  /\ domWild q = String.eqb (dayOfMonth parts) "*"
  /\ dowWild q = String.eqb (dayOfWeek parts) "*"
  /\ (dayOfMonth parts = "*" -> dayOfWeek parts = "*" ->
      dayMatch q dom dow = true)
  /\ (dayOfMonth parts = "*" -> dayOfWeek parts <> "*" ->
      (dayMatch q dom dow = true <-> In dow (dowSet q)))
  /\ (dayOfMonth parts <> "*" -> dayOfWeek parts = "*" ->
      (dayMatch q dom dow = true <-> In dom (daysOfMonth q)))
  /\ (dayOfMonth parts <> "*" -> dayOfWeek parts <> "*" ->
      (dayMatch q dom dow = true
       <-> In dom (daysOfMonth q) \/ In dow (dowSet q))).
Proof.
  intros Hparts Hq. unfold prepare in Hq. rewrite Hparts in Hq. simpl in Hq.
  destruct (parseField (minute parts) 0 59) as [mins| |]; try discriminate.
  destruct (parseField (hour parts) 0 23) as [hrs| |]; try discriminate.
  destruct (parseField (dayOfMonth parts) 1 31) as [doms| |]; try discriminate.
  destruct (parseField (month parts) 1 12) as [mons| |]; try discriminate.
  destruct (parseField (dayOfWeek parts) 0 7) as [dows| |]; try discriminate.
  simpl in Hq. injection Hq as <-.
  split; [exists doms, dows; repeat split|].
  unfold dayMatch. simpl.
  split; [reflexivity|]. split; [reflexivity|].
  destruct (String.eqb_spec (dayOfMonth parts) "*") as [Hdom|Hdom],
           (String.eqb_spec (dayOfWeek parts) "*") as [Hdow|Hdow];
    simpl; rewrite ?orb_true_iff, ?includesZ_In;
    repeat (split; [intros ? ?; try contradiction; try reflexivity; try tauto|]);
    intros ? ?; try contradiction; tauto.
Qed.

Lemma dayMatch_disjunction_witness :
  dayMatch (mkSearch [0] [9] [1] (interval 1 12) [1] false false) 9 1 = true
  <-> In 9 [1] \/ In 1 [1].
Proof.
  set (parts := mkCronParts "0" "9" "1" "*" "1").
  set (q := mkSearch [0] [9] [1] (interval 1 12) [1] false false).
  assert (Hp : parseCron "0 9 1 * 1" = Return parts) by reflexivity.
  assert (Hq : prepare "0 9 1 * 1" = Return q) by reflexivity.
  apply (proj2 (proj2 (proj2 (proj2 (proj2 (proj2
           (dayMatch_disjunction "0 9 1 * 1" parts q 9 1 Hp Hq)))))));
    discriminate.
Defined.

(** An explicit [1-31] resolves to the same set as ["*"] but is not a
    wildcard: with it every day matches, with ["*"] only Mondays do. *)
Example wildcard_is_textual :
  exists q1 q2,
    prepare "0 0 1-31 * 1" = Return q1 /\ prepare "0 0 * * 1" = Return q2
    /\ daysOfMonth q1 = daysOfMonth q2
    /\ dayMatch q1 3 2 = true /\ dayMatch q2 3 2 = false.
Proof.
  exists (mkSearch [0] [0] (interval 1 31) (interval 1 12) [1] false false).
  exists (mkSearch [0] [0] (interval 1 31) (interval 1 12) [1] true false).
  split; [|split; [|split; [|split]]]; vm_compute; reflexivity.
Qed.

(** On hosts with a constant offset the search does not depend on the
    offset. *)
Lemma settle_fixed (c : Z) (built : Date) :
  settle (fixedZone c) built = settle (fixedZone 0) built.
Proof.
  unfold settle, LocalTime, UTC. simpl.
  replace (localValue built - c + c - localValue built) with 0 by lia.
  replace (localValue built - 0 + 0 - localValue built) with 0 by lia.
  reflexivity.
Qed.

Lemma iteration_fixed (c : Z) (q : Search) (cur : Date) (res : list Date) :
  iteration (fixedZone c) q cur res = iteration (fixedZone 0) q cur res.
Proof.
  unfold iteration, setMonth, setHours, setMinutes, setDate.
  now rewrite !(settle_fixed c).
Qed.

Lemma loop_fixed (c : Z) (fuel : nat) :
  forall q count cur res,
    loop fuel (fixedZone c) q count cur res
    = loop fuel (fixedZone 0) q count cur res.
Proof.
  induction fuel as [|fuel IH]; intros q count cur res; simpl; [reflexivity|].
  rewrite iteration_fixed.
  destruct (Z.of_nat (List.length res) <? count); [|reflexivity].
  destruct (iteration (fixedZone 0) q cur res). apply IH.
Qed.

Lemma getNextRuns_fixed (c : Z) (expr : string) (count : Z) (now : Date) :
  getNextRuns (fixedZone c) expr count now
  = getNextRuns (fixedZone 0) expr count now.
Proof.
  unfold getNextRuns. destruct (prepare expr) as [q| |]; cbn [bind];
    [|reflexivity..].
  generalize (Z.to_nat maxIterations). intros fuel. rewrite loop_fixed.
  unfold startCursor, setMinutes, setSeconds.
  rewrite !(settle_fixed c). reflexivity.
Qed.

(** 9 November 2026 is a Monday and not the first of a month. *)
Example monday_not_first_is_produced (c : Z) :
  getNextRuns (fixedZone c) "0 9 1 * 1" 1 (mkDate 2026 10 2 10 30 15 123)
  = Return [mkDate 2026 10 9 9 0 0 0]
  /\ getDay (mkDate 2026 10 9 9 0 0 0) = 1.
Proof. rewrite getNextRuns_fixed. split; vm_compute; reflexivity. Qed.

(** C6.  7 becomes 0 in the match set, so ["0 0 * * 7"] and ["0 0 * * 0"]
    search with the same sets and give the same runs on every host, from
    every instant and for every count. *)
Theorem getNextRuns_sunday_7_is_0 :
  (forall (z : Zone) (count : Z) (now : Date),
      getNextRuns z "0 0 * * 7" count now = getNextRuns z "0 0 * * 0" count now)
  /\ (forall (vs : list Z) (v : Z),
         In v (normalizeDow vs) <-> (v <> 7 /\ In v vs) \/ (v = 0 /\ In 7 vs))
  /\ prepare "0 0 * * 7"
     = Return (mkSearch [0] [0] (interval 1 31) (interval 1 12) [0] true false)
  /\ (forall c : Z,
         getNextRuns (fixedZone c) "0 0 * * 7" 2 (mkDate 2026 10 2 10 30 15 123)
         = Return [mkDate 2026 10 8 0 0 0 0; mkDate 2026 10 15 0 0 0 0]).
Proof.
  split; [|split; [|split]].
  - intros z count now. unfold getNextRuns.
    replace (prepare "0 0 * * 7") with (prepare "0 0 * * 0")
      by (vm_compute; reflexivity).
    reflexivity.
  - exact normalizeDow_In.
  - vm_compute. reflexivity.
  - intros c. rewrite getNextRuns_fixed. vm_compute. reflexivity.
Qed.

(* ================================================================== *)
(** ** The calendar *)
(* ================================================================== *)

Lemma daysInMonth_bounds (y m : Z) : 28 <= daysInMonth y m <= 31.
Proof.
  unfold daysInMonth.
  destruct (m =? 1); [destruct (isLeap y); lia|].
  destruct ((m =? 3) || (m =? 5) || (m =? 8) || (m =? 10)); lia.
Qed.

Lemma dayFromYear_succ (y : Z) :
  dayFromYear (y + 1) = dayFromYear y + 365 + (if isLeap y then 1 else 0).
Proof.
  unfold dayFromYear, isLeap.
  replace (y + 1 - 1969) with (y - 1968) by lia.
  replace (y + 1 - 1901) with (y - 1900) by lia.
  replace (y + 1 - 1601) with (y - 1600) by lia.
  destruct (Z.eqb_spec (y mod 4) 0), (Z.eqb_spec (y mod 100) 0),
    (Z.eqb_spec (y mod 400) 0); cbn [andb orb negb];
    Z.div_mod_to_equations; lia.
Qed.

(** The first of the next month is [daysInMonth] days after the first of
    this one, also across the end of a year. *)
Lemma first_of_next_month (y m : Z) :
  0 <= m <= 11 ->
  dayNumber (y + (m + 1) / 12, (m + 1) mod 12, 1)
  = dayNumber (y, m, 1) + daysInMonth y m.
Proof.
  intros Hm.
  assert (Hcases : m = 0 \/ m = 1 \/ m = 2 \/ m = 3 \/ m = 4 \/ m = 5 \/ m = 6
                   \/ m = 7 \/ m = 8 \/ m = 9 \/ m = 10 \/ m = 11) by lia.
  unfold dayNumber.
  destruct Hcases as [->|[->|[->|[->|[->|[->|[->|[->|[->|[->|[->| ->]]]]]]]]]]];
    try (change ((11 + 1) / 12) with 1; change ((11 + 1) mod 12) with 0;
         rewrite dayFromYear_succ);
    unfold daysBeforeMonth, daysInMonth; simpl;
    rewrite ?Z.add_0_r; destruct (isLeap y); simpl; lia.
Qed.

Lemma nextDay_spec (d : Day) :
  wf_day d -> wf_day (nextDay d) /\ dayNumber (nextDay d) = dayNumber d + 1.
Proof.
  destruct d as [[y m] dd]. intros [Hm Hd]. unfold nextDay.
  pose proof (daysInMonth_bounds y m) as Hb.
  destruct (Z.ltb_spec dd (daysInMonth y m)) as [Hlt|Hge].
  - split; [split; lia | unfold dayNumber; lia].
  - assert (dd = daysInMonth y m) as -> by lia.
    pose proof (first_of_next_month y m Hm) as Hnext.
    destruct (Z.ltb_spec m 11) as [Hm11|Hm11].
    + rewrite (Z.div_small (m + 1) 12), (Z.mod_small (m + 1) 12), Z.add_0_r
        in Hnext by lia.
      pose proof (daysInMonth_bounds y (m + 1)).
      split; [split; lia|]. rewrite Hnext. unfold dayNumber. lia.
    + assert (m = 11) as -> by lia.
      change ((11 + 1) / 12) with 1 in Hnext.
      change ((11 + 1) mod 12) with 0 in Hnext.
      pose proof (daysInMonth_bounds (y + 1) 0).
      split; [split; lia|]. rewrite Hnext. unfold dayNumber. lia.
Qed.

Lemma iter_nextDay_spec (n : nat) :
  forall d, wf_day d ->
            wf_day (iter_day nextDay n d)
            /\ dayNumber (iter_day nextDay n d) = dayNumber d + Z.of_nat n.
Proof.
  induction n as [|n IH]; intros d Hd; simpl iter_day.
  - split; [exact Hd | lia].
  - destruct (nextDay_spec d Hd) as [Hwf Hnum].
    destruct (IH _ Hwf) as [Hwf' Hnum']. split; [exact Hwf' | lia].
Qed.

(** The time-of-day fields of a date that [makeDate] builds. *)
Lemma makeDate_time (y mo d h mi s ms : Z) :
  let s1 := s + ms / 1000 in
  let mi1 := mi + s1 / 60 in
  let h1 := h + mi1 / 60 in
  getHours (makeDate y mo d h mi s ms) = h1 mod 24
  /\ getMinutes (makeDate y mo d h mi s ms) = mi1 mod 60
  /\ getSeconds (makeDate y mo d h mi s ms) = s1 mod 60
  /\ getMilliseconds (makeDate y mo d h mi s ms) = ms mod 1000.
Proof.
  unfold makeDate.
  destruct (shiftDays _ _) as [[y' mo'] d']. simpl. repeat split.
Qed.

(** [MakeDate]: for arguments that do not run backwards, the date built is
    well formed and its time value is linear in the arguments. *)
Lemma makeDate_spec (y mo d h mi s ms : Z) :
  1 <= d -> 0 <= h -> 0 <= mi -> 0 <= s -> 0 <= ms ->
  wf_date (makeDate y mo d h mi s ms)
  /\ localValue (makeDate y mo d h mi s ms)
     = (dayNumber (y + mo / 12, mo mod 12, 1) + d - 1) * msPerDay
       + h * 3600000 + mi * 60000 + s * 1000 + ms.
Proof.
  intros Hd Hh Hmi Hs Hms. unfold makeDate.
  set (s1 := s + ms / 1000). set (mi1 := mi + s1 / 60).
  set (h1 := h + mi1 / 60). set (start := (y + mo / 12, mo mod 12, 1)).
  assert (Hs1 : 0 <= s1) by (unfold s1; Z.div_mod_to_equations; lia).
  assert (Hmi1 : 0 <= mi1) by (unfold mi1; Z.div_mod_to_equations; lia).
  assert (Hh1 : 0 <= h1) by (unfold h1; Z.div_mod_to_equations; lia).
  assert (Hk : 0 <= d - 1 + h1 / 24) by (Z.div_mod_to_equations; lia).
  assert (Hstart : wf_day start).
  { unfold start, wf_day.
    pose proof (daysInMonth_bounds (y + mo / 12) (mo mod 12)).
    pose proof (Z.mod_pos_bound mo 12). lia. }
  unfold shiftDays. rewrite (proj2 (Z.leb_le _ _) Hk).
  destruct (iter_nextDay_spec (Z.to_nat (d - 1 + h1 / 24)) start Hstart)
    as [Hwf Hnum].
  rewrite Z2Nat.id in Hnum by exact Hk.
  destruct (iter_day nextDay _ start) as [[y' mo'] d'].
  unfold wf_date, localValue.
  cbn [getFullYear getMonth getDate getHours getMinutes getSeconds
       getMilliseconds].
  rewrite Hnum.
  generalize (dayNumber start). intros D.
  pose proof (Z.mod_pos_bound h1 24). pose proof (Z.mod_pos_bound mi1 60).
  pose proof (Z.mod_pos_bound s1 60). pose proof (Z.mod_pos_bound ms 1000).
  split; [repeat split; try lia; apply Hwf|].
  unfold msPerDay, h1, mi1, s1. Z.div_mod_to_equations. lia.
Qed.

Lemma localValue_first (t : Date) :
  wf_date t ->
  localValue t
  = (dayNumber (getFullYear t + getMonth t / 12, getMonth t mod 12, 1)
     + getDate t - 1) * msPerDay
    + getHours t * 3600000 + getMinutes t * 60000 + getSeconds t * 1000
    + getMilliseconds t.
Proof.
  intros [[Hm _] _].
  rewrite Z.div_small, Z.mod_small, Z.add_0_r by lia.
  unfold localValue, dayNumber. lia.
Qed.

Lemma timeOfDay_bounds (t : Date) : wf_date t -> 0 <= timeOfDay t < msPerDay.
Proof. unfold wf_date, timeOfDay, msPerDay. lia. Qed.

Lemma prevDay_spec (d : Day) :
  wf_day d -> wf_day (prevDay d) /\ dayNumber (prevDay d) = dayNumber d - 1.
Proof.
  destruct d as [[y m] dd]. intros [Hm Hd]. unfold prevDay.
  destruct (Z.ltb_spec 1 dd) as [Hlt|Hge].
  - split; [split; lia | unfold dayNumber; lia].
  - assert (dd = 1) as -> by lia.
    destruct (Z.ltb_spec 0 m) as [Hm0|Hm0].
    + assert (Hm' : 0 <= m - 1 <= 11) by lia.
      pose proof (first_of_next_month y (m - 1) Hm') as Hnext.
      replace (m - 1 + 1) with m in Hnext by lia.
      rewrite (Z.div_small m 12), (Z.mod_small m 12), Z.add_0_r in Hnext by lia.
      pose proof (daysInMonth_bounds y (m - 1)).
      split; [split; lia|]. rewrite Hnext. unfold dayNumber. lia.
    + assert (m = 0) as -> by lia.
      assert (H11 : 0 <= 11 <= 11) by lia.
      pose proof (first_of_next_month (y - 1) 11 H11) as Hnext.
      change ((11 + 1) / 12) with 1 in Hnext.
      change ((11 + 1) mod 12) with 0 in Hnext.
      replace (y - 1 + 1) with y in Hnext by lia.
      change (daysInMonth (y - 1) 11) with 31 in Hnext.
      split; [split; [lia | change (daysInMonth (y - 1) 11) with 31; lia]|].
      rewrite Hnext. unfold dayNumber. lia.
Qed.

Lemma iter_prevDay_spec (n : nat) :
  forall d, wf_day d ->
            wf_day (iter_day prevDay n d)
            /\ dayNumber (iter_day prevDay n d) = dayNumber d - Z.of_nat n.
Proof.
  induction n as [|n IH]; intros d Hd; simpl iter_day.
  - split; [exact Hd | lia].
  - destruct (prevDay_spec d Hd) as [Hwf Hnum].
    destruct (IH _ Hwf) as [Hwf' Hnum']. split; [exact Hwf' | lia].
Qed.

Lemma shiftDays_spec (k : Z) (d : Day) :
  wf_day d ->
  wf_day (shiftDays k d) /\ dayNumber (shiftDays k d) = dayNumber d + k.
Proof.
  intros Hd. unfold shiftDays. destruct (Z.leb_spec 0 k) as [Hk|Hk].
  - destruct (iter_nextDay_spec (Z.to_nat k) d Hd) as [H1 H2].
    split; [exact H1 | lia].
  - destruct (iter_prevDay_spec (Z.to_nat (- k)) d Hd) as [H1 H2].
    split; [exact H1 | lia].
Qed.

(** [MakeDate] for any arguments, also those that run backwards. *)
Lemma makeDate_any (y mo d h mi s ms : Z) :
  wf_date (makeDate y mo d h mi s ms)
  /\ localValue (makeDate y mo d h mi s ms)
     = (dayNumber (y + mo / 12, mo mod 12, 1) + d - 1) * msPerDay
       + h * 3600000 + mi * 60000 + s * 1000 + ms.
Proof.
  unfold makeDate.
  set (s1 := s + ms / 1000). set (mi1 := mi + s1 / 60).
  set (h1 := h + mi1 / 60). set (start := (y + mo / 12, mo mod 12, 1)).
  assert (Hstart : wf_day start).
  { unfold start, wf_day.
    pose proof (daysInMonth_bounds (y + mo / 12) (mo mod 12)).
    pose proof (Z.mod_pos_bound mo 12). lia. }
  destruct (shiftDays_spec (d - 1 + h1 / 24) start Hstart) as [Hwf Hnum].
  destruct (shiftDays (d - 1 + h1 / 24) start) as [[y' mo'] d'].
  unfold wf_date, localValue.
  cbn [getFullYear getMonth getDate getHours getMinutes getSeconds
       getMilliseconds].
  rewrite Hnum.
  generalize (dayNumber start). intros D.
  pose proof (Z.mod_pos_bound h1 24). pose proof (Z.mod_pos_bound mi1 60).
  pose proof (Z.mod_pos_bound s1 60). pose proof (Z.mod_pos_bound ms 1000).
  split; [repeat split; try lia; apply Hwf|].
  unfold msPerDay, h1, mi1, s1. Z.div_mod_to_equations. lia.
Qed.

Lemma iter_nextDay_within (n : nat) :
  forall y m d,
    d + Z.of_nat n <= daysInMonth y m ->
    iter_day nextDay n (y, m, d) = (y, m, d + Z.of_nat n).
Proof.
  induction n as [|n IH]; intros y m d Hd; cbn [iter_day].
  - f_equal. lia.
  - assert (Hnext : nextDay (y, m, d) = (y, m, d + 1)).
    { unfold nextDay.
      destruct (Z.ltb_spec d (daysInMonth y m)) as [_|Hge]; [reflexivity | lia]. }
    rewrite Hnext, IH by lia. f_equal. lia.
Qed.

(** Fields in their calendar range are built as they are. *)
Lemma makeDate_id (t : Date) :
  wf_date t ->
  makeDate (getFullYear t) (getMonth t) (getDate t) (getHours t)
           (getMinutes t) (getSeconds t) (getMilliseconds t) = t.
Proof.
  destruct t as [y m d h mi s ms]. unfold wf_date, wf_day. simpl.
  intros ((Hm & Hd) & Hh & Hmi & Hs & Hms). unfold makeDate.
  rewrite (Z.div_small ms 1000), (Z.mod_small ms 1000), Z.add_0_r by lia.
  rewrite (Z.div_small s 60), (Z.mod_small s 60), Z.add_0_r by lia.
  rewrite (Z.div_small mi 60), (Z.mod_small mi 60), Z.add_0_r by lia.
  rewrite (Z.div_small h 24), (Z.mod_small h 24), Z.add_0_r by lia.
  rewrite (Z.div_small m 12), (Z.mod_small m 12), Z.add_0_r by lia.
  unfold shiftDays. destruct (Z.leb_spec 0 (d - 1)) as [_|]; [|lia].
  rewrite iter_nextDay_within by lia.
  replace (1 + Z.of_nat (Z.to_nat (d - 1))) with d by lia. reflexivity.
Qed.

(** What the getters read after a setter is a calendar date, and its local
    time value is [LocalTime] of the instant stored. *)
Lemma settle_spec (z : Zone) (built : Date) :
  wf_date (settle z built)
  /\ (wf_date built ->
      localValue (settle z built) = LocalTime z (UTC z (localValue built))).
Proof.
  unfold settle.
  destruct (makeDate_any (getFullYear built) (getMonth built) (getDate built)
              (getHours built) (getMinutes built) (getSeconds built)
              (getMilliseconds built
               + (LocalTime z (UTC z (localValue built)) - localValue built)))
    as [H1 H2].
  split; [exact H1|]. intros Hwf. rewrite H2, (localValue_first built Hwf). lia.
Qed.

(** On a host with a constant offset the getters read the fields built. *)
Lemma settle_constant (z : Zone) (built : Date) :
  constant_zone z -> wf_date built -> settle z built = built.
Proof.
  intros [c Hc] Hwf. unfold settle, LocalTime, UTC.
  rewrite (proj2 (Hc (localValue built))),
    (proj1 (Hc (localValue built - c))).
  replace (localValue built - c + c - localValue built) with 0 by lia.
  rewrite Z.add_0_r. now apply makeDate_id.
Qed.

Lemma getTime_constant (z : Zone) :
  constant_zone z -> exists c, forall t, getTime z t = localValue t - c.
Proof.
  intros [c Hc]. exists c. intros t. unfold getTime, UTC.
  now rewrite (proj2 (Hc (localValue t))).
Qed.

Section Setters.

Variable z : Zone.
Hypothesis Hz : constant_zone z.
Variable t : Date.
Hypothesis Hwf : wf_date t.

Lemma setSeconds_spec (s ms : Z) :
  0 <= s -> 0 <= ms ->
  wf_date (setSeconds z t s ms)
  /\ localValue (setSeconds z t s ms)
     = localValue t - getSeconds t * 1000 - getMilliseconds t + s * 1000 + ms.
Proof.
  intros Hs Hms. unfold setSeconds.
  destruct (makeDate_spec (getFullYear t) (getMonth t) (getDate t)
              (getHours t) (getMinutes t) s ms) as [H1 H2];
    try (unfold wf_date, wf_day in Hwf; lia).
  rewrite (settle_constant z _ Hz H1).
  split; [exact H1|]. rewrite H2, (localValue_first t Hwf). lia.
Qed.

Lemma setMinutes_spec (v : Z) :
  0 <= v ->
  wf_date (setMinutes z t v)
  /\ localValue (setMinutes z t v) = localValue t + (v - getMinutes t) * 60000.
Proof.
  intros Hv. unfold setMinutes.
  destruct (makeDate_spec (getFullYear t) (getMonth t) (getDate t)
              (getHours t) v (getSeconds t) (getMilliseconds t)) as [H1 H2];
    try (unfold wf_date, wf_day in Hwf; lia).
  rewrite (settle_constant z _ Hz H1).
  split; [exact H1|]. rewrite H2, (localValue_first t Hwf). lia.
Qed.

Lemma setHours_spec (h mi s ms : Z) :
  0 <= h -> 0 <= mi -> 0 <= s -> 0 <= ms ->
  wf_date (setHours z t h mi s ms)
  /\ localValue (setHours z t h mi s ms)
     = localValue t - timeOfDay t + h * 3600000 + mi * 60000 + s * 1000 + ms.
Proof.
  intros Hh Hmi Hs Hms. unfold setHours.
  destruct (makeDate_spec (getFullYear t) (getMonth t) (getDate t)
              h mi s ms) as [H1 H2];
    try (unfold wf_date, wf_day in Hwf; lia).
  rewrite (settle_constant z _ Hz H1).
  split; [exact H1|]. rewrite H2, (localValue_first t Hwf). unfold timeOfDay. lia.
Qed.

Lemma setDate_spec (v : Z) :
  1 <= v ->
  wf_date (setDate z t v)
  /\ localValue (setDate z t v) = localValue t + (v - getDate t) * msPerDay.
Proof.
  intros Hv. unfold setDate.
  destruct (makeDate_spec (getFullYear t) (getMonth t) v
              (getHours t) (getMinutes t) (getSeconds t) (getMilliseconds t))
    as [H1 H2];
    try (unfold wf_date, wf_day in Hwf; lia).
  rewrite (settle_constant z _ Hz H1).
  split; [exact H1|]. rewrite H2, (localValue_first t Hwf). lia.
Qed.

Lemma setMonth_spec (mo d : Z) :
  1 <= d ->
  wf_date (setMonth z t mo d)
  /\ localValue (setMonth z t mo d)
     = (dayNumber (getFullYear t + mo / 12, mo mod 12, 1) + d - 1) * msPerDay
       + timeOfDay t.
Proof.
  intros Hd. unfold setMonth.
  destruct (makeDate_spec (getFullYear t) mo d
              (getHours t) (getMinutes t) (getSeconds t) (getMilliseconds t))
    as [H1 H2];
    try (unfold wf_date, wf_day in Hwf; lia).
  rewrite (settle_constant z _ Hz H1).
  split; [exact H1|]. rewrite H2. unfold timeOfDay. lia.
Qed.

End Setters.

(* ================================================================== *)
(** ** The search loop *)
(* ================================================================== *)

(** On a host with a constant offset a setter leaves the fields it
    built. *)
Section ConstantSetters.

Variable z : Zone.
Hypothesis Hz : constant_zone z.
Variable t : Date.

Lemma setSeconds_constant (s ms : Z) :
  setSeconds z t s ms
  = makeDate (getFullYear t) (getMonth t) (getDate t) (getHours t)
             (getMinutes t) s ms.
Proof. apply (settle_constant z _ Hz), makeDate_any. Qed.

Lemma setMinutes_constant (mi : Z) :
  setMinutes z t mi
  = makeDate (getFullYear t) (getMonth t) (getDate t) (getHours t) mi
             (getSeconds t) (getMilliseconds t).
Proof. apply (settle_constant z _ Hz), makeDate_any. Qed.

Lemma setHours_constant (h mi s ms : Z) :
  setHours z t h mi s ms
  = makeDate (getFullYear t) (getMonth t) (getDate t) h mi s ms.
Proof. apply (settle_constant z _ Hz), makeDate_any. Qed.

End ConstantSetters.

(** The four ways the loop body moves the cursor, on a host with a
    constant offset. *)
Section Advance.

Variable z : Zone.
Hypothesis Hz : constant_zone z.
Variable cur : Date.
Hypothesis Hwf : wf_date cur.

Lemma advance_minute :
  let next := setMinutes z cur (getMinutes cur + 1) in
  wf_date next /\ localValue next = localValue cur + 60000.
Proof.
  destruct (setMinutes_spec z Hz cur Hwf (getMinutes cur + 1)) as [H1 H2];
    [unfold wf_date in Hwf; lia|].
  split; [exact H1 | rewrite H2; lia].
Qed.

Lemma advance_hour :
  let next := setMinutes z (setHours z cur (getHours cur + 1) 0 0 0) 0 in
  wf_date next /\ localValue cur < localValue next.
Proof.
  destruct (setHours_spec z Hz cur Hwf (getHours cur + 1) 0 0 0) as [H1 H2];
    try (unfold wf_date in Hwf; lia).
  destruct (setMinutes_spec z Hz _ H1 0) as [H3 H4]; [lia|].
  split; [exact H3|]. cbn zeta. rewrite H4, H2.
  rewrite (setHours_constant z Hz).
  destruct (makeDate_time (getFullYear cur) (getMonth cur) (getDate cur)
              (getHours cur + 1) 0 0 0) as (_ & -> & _).
  change ((0 + (0 + 0 / 1000) / 60) mod 60) with 0.
  unfold timeOfDay. unfold wf_date in Hwf. lia.
Qed.

Lemma advance_day :
  let next := setHours z (setDate z cur (getDate cur + 1)) 0 0 0 0 in
  wf_date next /\ localValue cur < localValue next.
Proof.
  destruct (setDate_spec z Hz cur Hwf (getDate cur + 1)) as [H1 H2];
    [unfold wf_date, wf_day in Hwf; lia|].
  destruct (setHours_spec z Hz _ H1 0 0 0 0) as [H3 H4]; try lia.
  split; [exact H3|]. cbn zeta. rewrite H4, H2.
  pose proof (timeOfDay_bounds _ H1). unfold msPerDay in *. lia.
Qed.

Lemma advance_month :
  let next := setHours z (setMonth z cur (getMonth cur + 1) 1) 0 0 0 0 in
  wf_date next /\ localValue cur < localValue next.
Proof.
  destruct (setMonth_spec z Hz cur Hwf (getMonth cur + 1) 1) as [H1 H2]; [lia|].
  destruct (setHours_spec z Hz _ H1 0 0 0 0) as [H3 H4]; try lia.
  split; [exact H3|]. cbn zeta. rewrite H4, H2.
  assert (Hm : 0 <= getMonth cur <= 11) by (unfold wf_date, wf_day in Hwf; lia).
  rewrite (first_of_next_month _ _ Hm).
  pose proof (timeOfDay_bounds _ H1). pose proof (timeOfDay_bounds _ Hwf).
  assert (Hd : getDate cur <= daysInMonth (getFullYear cur) (getMonth cur))
    by (unfold wf_date, wf_day in Hwf; lia).
  assert (Hcur : localValue cur
                 = (dayNumber (getFullYear cur, getMonth cur, 1)
                    + getDate cur - 1) * msPerDay + timeOfDay cur)
    by (unfold localValue, dayNumber, timeOfDay; lia).
  rewrite Hcur. unfold msPerDay in *. lia.
Qed.

End Advance.

(** A constant offset is orderly. *)
Lemma constant_orderly (z : Zone) : constant_zone z -> orderly z.
Proof.
  intros [c Hc]. unfold orderly, LocalTime, UTC.
  split; [|split].
  - intros tl. rewrite (proj2 (Hc tl)), (proj1 (Hc (tl - c))). lia.
  - intros tl. rewrite (proj2 (Hc tl)), (proj1 (Hc (tl - c))),
      (proj2 (Hc (tl - c + c))). lia.
  - intros u tl. rewrite (proj1 (Hc u)), (proj2 (Hc (u + c))), (proj2 (Hc tl)).
    lia.
Qed.

(** The host of [fallBackZone] is orderly, and its offsets differ by whole
    minutes. *)
Lemma fallBackZone_orderly : orderly fallBackZone /\ whole_minutes fallBackZone.
Proof.
  unfold orderly, whole_minutes, LocalTime, UTC, fallBackZone.
  cbn [localTZA_utc localTZA_local].
  remember (localValue (mkDate 2026 10 1 6 0 0 0)) as T0 eqn:E0.
  remember (localValue (mkDate 2026 10 1 2 0 0 0)) as L0 eqn:E1.
  vm_compute in E0, E1. subst T0 L0.
  split; [split; [|split]|].
  - intros tl. destruct (Z.ltb_spec tl 1793498400000);
      match goal with |- context [?a <? ?b] => destruct (Z.ltb_spec a b) end;
      lia.
  - intros tl. destruct (Z.ltb_spec tl 1793498400000);
      repeat match goal with
             | |- context [?a <? ?b] => destruct (Z.ltb_spec a b)
             end; lia.
  - intros u tl. destruct (Z.ltb_spec u 1793512800000);
      repeat match goal with
             | |- context [?a <? ?b] => destruct (Z.ltb_spec a b)
             end; lia.
  - intros a b.
    destruct (a <? 1793512800000), (b <? 1793498400000); reflexivity.
Qed.

(** The fields built from those of a calendar date, within its month. *)
Lemma makeDate_same_month (t : Date) (d h mi s ms : Z) :
  wf_date t ->
  wf_date (makeDate (getFullYear t) (getMonth t) d h mi s ms)
  /\ localValue (makeDate (getFullYear t) (getMonth t) d h mi s ms)
     = localValue t - timeOfDay t + (d - getDate t) * msPerDay
       + h * 3600000 + mi * 60000 + s * 1000 + ms.
Proof.
  intros Hwf.
  destruct (makeDate_any (getFullYear t) (getMonth t) d h mi s ms) as [H1 H2].
  split; [exact H1|]. rewrite H2, (localValue_first t Hwf). unfold timeOfDay.
  lia.
Qed.

(** What a setter leaves on an orderly host. *)
Lemma settle_orderly (z : Zone) (built : Date) :
  orderly z -> wf_date built ->
  wf_date (settle z built)
  /\ read_back z (settle z built)
  /\ localValue built <= localValue (settle z built)
  /\ getTime z (settle z built) = UTC z (localValue built).
Proof.
  intros (R1 & R2 & _) Hwf. destruct (settle_spec z built) as [H1 H2].
  specialize (H2 Hwf). split; [exact H1|].
  split; [eexists; exact H2|]. split; [rewrite H2; apply R1|].
  unfold getTime. rewrite H2. apply R2.
Qed.

Lemma settle_later (z : Zone) (cur built : Date) :
  orderly z -> read_back z cur -> wf_date built ->
  localValue cur < localValue built ->
  read_back z (settle z built) /\ getTime z cur < getTime z (settle z built).
Proof.
  intros Hz [u Hu] Hwf Hlt.
  destruct (settle_orderly z built Hz Hwf) as (_ & Hread & _ & ->).
  split; [exact Hread|]. destruct Hz as (_ & _ & R3).
  unfold getTime. rewrite Hu. apply R3. now rewrite <- Hu.
Qed.

(** The four ways the loop body moves the cursor, on an orderly host:
    always to a later instant. *)
Section Forward.

Variable z : Zone.
Hypothesis Hz : orderly z.
Variable cur : Date.
Hypothesis Hwf : wf_date cur.
Hypothesis Hread : read_back z cur.

Lemma forward_minute :
  let next := setMinutes z cur (getMinutes cur + 1) in
  read_back z next /\ getTime z cur < getTime z next.
Proof.
  cbn zeta. unfold setMinutes.
  destruct (makeDate_same_month cur (getDate cur) (getHours cur)
              (getMinutes cur + 1) (getSeconds cur) (getMilliseconds cur) Hwf)
    as [B1 B2].
  apply (settle_later z cur _ Hz Hread B1). rewrite B2. unfold timeOfDay. lia.
Qed.

Lemma forward_hour :
  let next := setMinutes z (setHours z cur (getHours cur + 1) 0 0 0) 0 in
  read_back z next /\ getTime z cur < getTime z next.
Proof.
  cbn zeta. unfold setMinutes at 1.
  destruct (makeDate_same_month cur (getDate cur) (getHours cur + 1) 0 0 0 Hwf)
    as [B1 B2].
  fold (setHours z cur (getHours cur + 1) 0 0 0).
  assert (Hc1 : wf_date (setHours z cur (getHours cur + 1) 0 0 0)
                /\ localValue cur - timeOfDay cur
                   + (getHours cur + 1) * 3600000
                   <= localValue (setHours z cur (getHours cur + 1) 0 0 0)).
  { unfold setHours.
    destruct (settle_orderly z _ Hz B1) as (W & _ & Hle & _).
    split; [exact W|]. rewrite B2 in Hle. lia. }
  destruct Hc1 as [W1 Hle]. set (c1 := setHours z cur (getHours cur + 1) 0 0 0) in *.
  destruct (makeDate_same_month c1 (getDate c1) (getHours c1) 0
              (getSeconds c1) (getMilliseconds c1) W1) as [B3 B4].
  apply (settle_later z cur _ Hz Hread B3). rewrite B4.
  clear B1 B2 B3 B4. revert Hle. unfold localValue, timeOfDay, msPerDay.
  generalize (dayNumber (getFullYear c1, getMonth c1, getDate c1)).
  generalize (dayNumber (getFullYear cur, getMonth cur, getDate cur)).
  intros D0 D1 Hle. unfold wf_date in Hwf, W1. lia.
Qed.

Lemma forward_day :
  let next := setHours z (setDate z cur (getDate cur + 1)) 0 0 0 0 in
  read_back z next /\ getTime z cur < getTime z next.
Proof.
  cbn zeta. unfold setHours.
  destruct (makeDate_same_month cur (getDate cur + 1) (getHours cur)
              (getMinutes cur) (getSeconds cur) (getMilliseconds cur) Hwf)
    as [B1 B2].
  assert (Hc1 : wf_date (setDate z cur (getDate cur + 1))
                /\ localValue cur + msPerDay
                   <= localValue (setDate z cur (getDate cur + 1))).
  { unfold setDate.
    destruct (settle_orderly z _ Hz B1) as (W & _ & Hle & _).
    split; [exact W|]. rewrite B2 in Hle. unfold timeOfDay in Hle. lia. }
  destruct Hc1 as [W1 Hle]. set (c1 := setDate z cur (getDate cur + 1)) in *.
  destruct (makeDate_same_month c1 (getDate c1) 0 0 0 0 W1) as [B3 B4].
  apply (settle_later z cur _ Hz Hread B3). rewrite B4.
  clear B1 B2 B3 B4. revert Hle. unfold localValue, timeOfDay, msPerDay.
  generalize (dayNumber (getFullYear c1, getMonth c1, getDate c1)).
  generalize (dayNumber (getFullYear cur, getMonth cur, getDate cur)).
  intros D0 D1 Hle. unfold wf_date in Hwf, W1. lia.
Qed.

Lemma forward_month :
  let next := setHours z (setMonth z cur (getMonth cur + 1) 1) 0 0 0 0 in
  read_back z next /\ getTime z cur < getTime z next.
Proof.
  cbn zeta. unfold setHours.
  assert (Hm : 0 <= getMonth cur <= 11) by (unfold wf_date, wf_day in Hwf; lia).
  assert (Hd : 1 <= getDate cur <= daysInMonth (getFullYear cur) (getMonth cur))
    by (unfold wf_date, wf_day in Hwf; lia).
  assert (Hc1 : wf_date (setMonth z cur (getMonth cur + 1) 1)
                /\ (dayNumber (getFullYear cur, getMonth cur, 1)
                    + daysInMonth (getFullYear cur) (getMonth cur)) * msPerDay
                   <= localValue (setMonth z cur (getMonth cur + 1) 1)).
  { unfold setMonth.
    destruct (makeDate_any (getFullYear cur) (getMonth cur + 1) 1
                (getHours cur) (getMinutes cur) (getSeconds cur)
                (getMilliseconds cur)) as [B1 B2].
    destruct (settle_orderly z _ Hz B1) as (W & _ & Hle & _).
    split; [exact W|]. rewrite B2, (first_of_next_month _ _ Hm) in Hle.
    unfold wf_date in Hwf. unfold msPerDay in *. lia. }
  destruct Hc1 as [W1 Hle]. set (c1 := setMonth z cur (getMonth cur + 1) 1) in *.
  destruct (makeDate_same_month c1 (getDate c1) 0 0 0 0 W1) as [B3 B4].
  apply (settle_later z cur _ Hz Hread B3). rewrite B4.
  clear B3 B4. revert Hle.
  assert (Hcur : localValue cur
                 = (dayNumber (getFullYear cur, getMonth cur, 1)
                    + getDate cur - 1) * msPerDay + timeOfDay cur)
    by (unfold localValue, dayNumber, timeOfDay; lia).
  rewrite Hcur. pose proof (timeOfDay_bounds _ Hwf) as Bc.
  pose proof (timeOfDay_bounds _ W1) as B1.
  generalize dependent (timeOfDay cur). intros T0 _ Bc.
  unfold localValue at 1 2. fold (timeOfDay c1).
  assert (Hsplit : dayNumber (getFullYear c1, getMonth c1, getDate c1) * msPerDay
                   + getHours c1 * 3600000 + getMinutes c1 * 60000
                   + getSeconds c1 * 1000 + getMilliseconds c1
                   = dayNumber (getFullYear c1, getMonth c1, getDate c1)
                     * msPerDay + timeOfDay c1)
    by (unfold timeOfDay; lia).
  rewrite Hsplit. clear Hsplit.
  generalize dependent (timeOfDay c1). intros T1 B1.
  generalize (dayNumber (getFullYear c1, getMonth c1, getDate c1)).
  generalize (dayNumber (getFullYear cur, getMonth cur, 1)).
  generalize (daysInMonth (getFullYear cur) (getMonth cur)) Hd.
  unfold msPerDay in *. intros dim Hdim F D1 Hle. lia.
Qed.

End Forward.

(** A round leaves the results as they are or records the cursor, and it
    records the cursor only when the cursor passes the four tests. *)
Lemma iteration_records (z : Zone) (q : Search) (cur : Date) (res : list Date) :
  snd (iteration z q cur res) = res
  \/ (snd (iteration z q cur res) = (res ++ [cur])%list
      /\ matches q cur = true).
Proof.
  unfold iteration, matches.
  destruct (includesZ (months q) (getMonth cur + 1)); simpl; [|now left].
  destruct (includesZ (hours q) (getHours cur)); simpl; [|now left].
  destruct (dayMatch q (getDate cur) (getDay cur)); simpl; [|now left].
  destruct (includesZ (minutes q) (getMinutes cur)); auto.
Qed.

(** On every host the cursor a round leaves is a calendar date. *)
Lemma iteration_wf (z : Zone) (q : Search) (cur : Date) (res : list Date) :
  wf_date (fst (iteration z q cur res)).
Proof.
  unfold iteration.
  destruct (negb _); [apply settle_spec|].
  destruct (negb _); [apply settle_spec|].
  destruct (negb _); apply settle_spec.
Qed.

Lemma iteration_spec (z : Zone) (q : Search) (cur : Date) (res : list Date) :
  constant_zone z -> wf_date cur ->
  wf_date (fst (iteration z q cur res))
  /\ localValue cur < localValue (fst (iteration z q cur res))
  /\ (snd (iteration z q cur res) = res
      \/ (snd (iteration z q cur res) = (res ++ [cur])%list
          /\ matches q cur = true)).
Proof.
  intros Hz Hwf. split; [apply iteration_wf|].
  split; [|apply iteration_records].
  unfold iteration.
  destruct (includesZ (months q) (getMonth cur + 1)); simpl.
  2: { now destruct (advance_month z Hz cur Hwf). }
  destruct (includesZ (hours q) (getHours cur)); simpl.
  2: { now destruct (advance_hour z Hz cur Hwf). }
  destruct (dayMatch q (getDate cur) (getDay cur)); simpl.
  2: { now destruct (advance_day z Hz cur Hwf). }
  destruct (advance_minute z Hz cur Hwf) as [_ H2]. cbn zeta in H2. lia.
Qed.

Lemma StronglySorted_snoc {A : Type} (R : A -> A -> Prop) (l : list A) (x : A) :
  StronglySorted R l -> Forall (fun a => R a x) l ->
  StronglySorted R (l ++ [x]).
Proof.
  induction 1 as [|a l Hl IH Ha]; intros Hx; simpl.
  - repeat constructor.
  - inversion Hx; subst. constructor; [now apply IH|].
    apply Forall_app. split; [exact Ha | now constructor].
Qed.

Lemma loop_spec (fuel : nat) :
  forall (z : Zone) (q : Search) (count : Z) (start cur : Date)
         (res : list Date),
    constant_zone z ->
    loop_inv q count start cur res ->
    let rs := loop fuel z q count cur res in
    Forall (fun r => wf_date r /\ matches q r = true
                     /\ localValue start <= localValue r) rs
    /\ StronglySorted earlier rs
    /\ Z.of_nat (List.length rs) <= Z.max 0 count.
Proof.
  induction fuel as [|fuel IH]; intros z q count start cur res Hz Hinv; simpl.
  - destruct Hinv. split; [|split]; try assumption.
    eapply Forall_impl; [|eassumption]. simpl. tauto.
  - destruct (Z.ltb_spec (Z.of_nat (List.length res)) count) as [Hlt|Hge].
    + destruct (iteration_spec z q cur res Hz (inv_wf _ _ _ _ _ Hinv))
        as (Hwf' & Htime & Hres).
      destruct (iteration z q cur res) as [cur' res']. simpl in *.
      apply IH; [exact Hz|]. destruct Hinv as [Hwf Hstart Hall Hsorted Hcount].
      assert (Hall' : Forall (fun r => wf_date r /\ matches q r = true
                                       /\ localValue start <= localValue r
                                       /\ localValue r < localValue cur') res).
      { eapply Forall_impl; [|exact Hall]. simpl. intros r ?. intuition lia. }
      destruct Hres as [->|[-> Hmatch]].
      * constructor; try assumption. lia.
      * constructor; try assumption; try lia.
        -- apply Forall_app. split; [exact Hall'|].
           constructor; [|constructor]. intuition lia.
        -- apply StronglySorted_snoc; [exact Hsorted|].
           eapply Forall_impl; [|exact Hall]. unfold earlier. simpl. tauto.
        -- rewrite length_app. simpl. lia.
    + destruct Hinv. split; [|split]; try assumption.
      eapply Forall_impl; [|eassumption]. simpl. tauto.
Qed.

(** On every host the loop stops adding when [count] results are there,
    and what it returns are cursors that passed the four tests. *)
Lemma loop_length (fuel : nat) :
  forall (z : Zone) (q : Search) (count : Z) (cur : Date) (res : list Date),
    Z.of_nat (List.length res) <= Z.max 0 count ->
    Z.of_nat (List.length (loop fuel z q count cur res)) <= Z.max 0 count.
Proof.
  induction fuel as [|fuel IH]; intros z q count cur res Hlen; simpl;
    [exact Hlen|].
  destruct (Z.ltb_spec (Z.of_nat (List.length res)) count) as [Hlt|Hge];
    [|exact Hlen].
  pose proof (iteration_records z q cur res) as Hres.
  destruct (iteration z q cur res) as [cur' res']. simpl in Hres.
  apply IH. destruct Hres as [->|[-> _]]; [exact Hlen|].
  rewrite length_app. simpl. lia.
Qed.

Lemma loop_matches (fuel : nat) :
  forall (z : Zone) (q : Search) (count : Z) (cur : Date) (res : list Date),
    wf_date cur ->
    Forall (fun r => wf_date r /\ matches q r = true) res ->
    Forall (fun r => wf_date r /\ matches q r = true)
           (loop fuel z q count cur res).
Proof.
  induction fuel as [|fuel IH]; intros z q count cur res Hwf Hall; simpl;
    [exact Hall|].
  destruct (Z.of_nat (List.length res) <? count); [|exact Hall].
  pose proof (iteration_records z q cur res) as Hres.
  pose proof (iteration_wf z q cur res) as Hwf'.
  destruct (iteration z q cur res) as [cur' res']. simpl in *.
  apply IH; [exact Hwf'|]. destruct Hres as [->|[-> Hm]]; [exact Hall|].
  apply Forall_app. split; [exact Hall|].
  constructor; [now split | constructor].
Qed.

Lemma startCursor_wf (z : Zone) (now : Date) : wf_date (startCursor z now).
Proof. unfold startCursor, setMinutes. apply settle_spec. Qed.

(** On an orderly host every round moves the cursor to a later instant. *)
Lemma iteration_forward (z : Zone) (q : Search) (cur : Date) (res : list Date) :
  orderly z -> wf_date cur -> read_back z cur ->
  read_back z (fst (iteration z q cur res))
  /\ getTime z cur < getTime z (fst (iteration z q cur res)).
Proof.
  intros Hz Hwf Hread. unfold iteration.
  destruct (includesZ (months q) (getMonth cur + 1)); cbn [negb fst];
    [|exact (forward_month z Hz cur Hwf Hread)].
  destruct (includesZ (hours q) (getHours cur)); cbn [negb fst];
    [|exact (forward_hour z Hz cur Hwf Hread)].
  destruct (dayMatch q (getDate cur) (getDay cur)); cbn [negb fst];
    [|exact (forward_day z Hz cur Hwf Hread)].
  exact (forward_minute z Hz cur Hwf Hread).
Qed.

Lemma loop_chrono (fuel : nat) :
  forall (z : Zone) (q : Search) (count : Z) (start cur : Date)
         (res : list Date),
    orderly z ->
    chrono_inv z start cur res ->
    let rs := loop fuel z q count cur res in
    Forall (fun r => getTime z start <= getTime z r) rs
    /\ StronglySorted (before z) rs.
Proof.
  induction fuel as [|fuel IH]; intros z q count start cur res Hz Hinv; simpl.
  - destruct Hinv. split; [|assumption].
    eapply Forall_impl; [|eassumption]. simpl. tauto.
  - destruct (Z.of_nat (List.length res) <? count).
    + destruct Hinv as [Hwf Hread Hstart Hall Hsorted].
      destruct (iteration_forward z q cur res Hz Hwf Hread) as (Hread' & Htime).
      pose proof (iteration_wf z q cur res) as Hwf'.
      pose proof (iteration_records z q cur res) as Hres.
      destruct (iteration z q cur res) as [cur' res']. simpl in *.
      apply IH; [exact Hz|].
      assert (Hall' : Forall (fun r => getTime z start <= getTime z r
                                       < getTime z cur') res).
      { eapply Forall_impl; [|exact Hall]. simpl. intros r ?. lia. }
      destruct Hres as [->|[-> _]].
      * constructor; try assumption. lia.
      * constructor; try assumption; try lia.
        -- apply Forall_app. split; [exact Hall'|].
           constructor; [lia | constructor].
        -- apply StronglySorted_snoc; [exact Hsorted|].
           eapply Forall_impl; [|exact Hall]. unfold before. simpl. tauto.
    + destruct Hinv. split; [|assumption].
      eapply Forall_impl; [|eassumption]. simpl. tauto.
Qed.

Lemma startCursor_read_back (z : Zone) (now : Date) :
  orderly z -> read_back z (startCursor z now).
Proof.
  intros Hz. unfold startCursor, setMinutes.
  apply (settle_orderly z _ Hz), makeDate_any.
Qed.

(** On an orderly host the start cursor lies after the clock, unless the
    local time the clock shows denotes another instant (the earlier of
    two). *)
Lemma startCursor_after_clock (z : Zone) (clock : Z) (now : Date) :
  orderly z -> reads z clock now ->
  UTC z (LocalTime z clock) = clock ->
  clock < getTime z (startCursor z now).
Proof.
  intros Hz [Hwf Hnow] Hback. unfold startCursor.
  destruct (makeDate_same_month now (getDate now) (getHours now)
              (getMinutes now) 0 0 Hwf) as [B1 B2].
  assert (Hc1 : wf_date (setSeconds z now 0 0)
                /\ localValue now - getSeconds now * 1000 - getMilliseconds now
                   <= localValue (setSeconds z now 0 0)).
  { unfold setSeconds.
    destruct (settle_orderly z _ Hz B1) as (W & _ & Hle & _).
    split; [exact W|]. rewrite B2 in Hle. unfold timeOfDay in Hle. lia. }
  destruct Hc1 as [W1 Hle]. set (c1 := setSeconds z now 0 0) in *.
  unfold setMinutes.
  destruct (makeDate_same_month c1 (getDate c1) (getHours c1)
              (getMinutes c1 + 1) (getSeconds c1) (getMilliseconds c1) W1)
    as [B3 B4].
  destruct (settle_orderly z _ Hz B3) as (_ & _ & _ & ->).
  rewrite <- Hback at 1. destruct Hz as (_ & _ & R3). apply R3.
  rewrite <- Hnow, B4. unfold timeOfDay. unfold wf_date in Hwf. lia.
Qed.

Lemma startCursor_spec (z : Zone) (now : Date) :
  constant_zone z -> wf_date now ->
  wf_date (startCursor z now)
  /\ localValue (startCursor z now) = localValue now / 60000 * 60000 + 60000
  /\ getSeconds (startCursor z now) = 0
  /\ getMilliseconds (startCursor z now) = 0.
Proof.
  intros Hz Hwf. unfold startCursor.
  destruct (setSeconds_spec z Hz now Hwf 0 0) as [H1 H2]; try lia.
  destruct (advance_minute z Hz _ H1) as [H3 H4]. cbn zeta in *.
  split; [exact H3|]. split.
  - rewrite H4, H2. unfold localValue, msPerDay. unfold wf_date in Hwf.
    generalize (dayNumber (getFullYear now, getMonth now, getDate now)).
    intros D. Z.div_mod_to_equations. lia.
  - assert (Hs : getSeconds (setSeconds z now 0 0) = 0
                 /\ getMilliseconds (setSeconds z now 0 0) = 0).
    { rewrite (setSeconds_constant z Hz).
      destruct (makeDate_time (getFullYear now) (getMonth now) (getDate now)
                  (getHours now) (getMinutes now) 0 0) as (_ & _ & -> & ->).
      split; reflexivity. }
    destruct Hs as [Hs Hms]. rewrite (setMinutes_constant z Hz).
    destruct (makeDate_time (getFullYear (setSeconds z now 0 0))
                (getMonth (setSeconds z now 0 0)) (getDate (setSeconds z now 0 0))
                (getHours (setSeconds z now 0 0))
                (getMinutes (setSeconds z now 0 0) + 1)
                (getSeconds (setSeconds z now 0 0))
                (getMilliseconds (setSeconds z now 0 0))) as (_ & _ & -> & ->).
    rewrite Hs, Hms. split; reflexivity.
Qed.

Lemma valid_prepare (expr : string) :
  validateCron expr = Return (mkValidation true None) ->
  exists q, prepare expr = Return q.
Proof.
  unfold validateCron, validateCron_try, prepare.
  destruct (parseCron expr) as [parts| |]; simpl; try discriminate.
  destruct (parseField (minute parts) 0 59); simpl; try discriminate.
  destruct (parseField (hour parts) 0 23); simpl; try discriminate.
  destruct (parseField (dayOfMonth parts) 1 31); simpl; try discriminate.
  destruct (parseField (month parts) 1 12); simpl; try discriminate.
  destruct (parseField (dayOfWeek parts) 0 7); simpl; try discriminate.
  intros _. eexists. reflexivity.
Qed.

Lemma Return_inj {A : Type} (a b : A) : Return a = Return b -> a = b.
Proof. now intros [= ->]. Qed.

(** On a host with a constant offset every run the search returns is a
    calendar date that passes the four tests of the loop body, is not
    before the start cursor, and the runs are in strictly increasing
    order, at most [count] of them. *)
Lemma getNextRuns_spec (z : Zone) (expr : string) (count : Z) (now : Date)
  (q : Search) :
  constant_zone z -> wf_date now -> prepare expr = Return q ->
  exists rs,
    getNextRuns z expr count now = Return rs
    /\ Forall (fun r => wf_date r /\ matches q r = true
                        /\ localValue (startCursor z now) <= localValue r) rs
    /\ StronglySorted earlier rs
    /\ Z.of_nat (List.length rs) <= Z.max 0 count.
Proof.
  intros Hz Hwf Hq. unfold getNextRuns. rewrite Hq. cbn [bind].
  eexists. split; [reflexivity|].
  apply loop_spec; [exact Hz|].
  destruct (startCursor_spec z now Hz Hwf) as [Hs _].
  constructor; [exact Hs | lia | constructor | constructor | simpl; lia].
Qed.

(** Where the two offsets of the host differ by whole minutes, what the
    getters read after a setter is on a whole minute when the fields built
    are. *)
Lemma settle_aligned (z : Zone) (built : Date) :
  whole_minutes z -> aligned built -> aligned (settle z built).
Proof.
  intros Hz [Hs Hms]. unfold aligned, settle.
  set (shift := LocalTime z (UTC z (localValue built)) - localValue built).
  assert (Hshift : shift mod 60000 = 0).
  { unfold shift, LocalTime, UTC.
    specialize (Hz (localValue built - localTZA_local z (localValue built))
                   (localValue built)).
    match goal with
    | |- ?a mod _ = 0 =>
        replace a with
          (localTZA_utc z (localValue built
                           - localTZA_local z (localValue built))
           - localTZA_local z (localValue built)) by lia
    end.
    exact Hz. }
  destruct (makeDate_time (getFullYear built) (getMonth built) (getDate built)
              (getHours built) (getMinutes built) (getSeconds built)
              (getMilliseconds built + shift)) as (_ & _ & -> & ->).
  rewrite Hs, Hms. generalize dependent shift. intros shift Hshift.
  Z.div_mod_to_equations. lia.
Qed.

Lemma setMinutes_aligned (z : Zone) (t : Date) (v : Z) :
  whole_minutes z -> aligned t -> aligned (setMinutes z t v).
Proof.
  intros Hz [Hs Hms]. unfold setMinutes. apply (settle_aligned z _ Hz).
  unfold aligned.
  destruct (makeDate_time (getFullYear t) (getMonth t) (getDate t)
              (getHours t) v (getSeconds t) (getMilliseconds t))
    as (_ & _ & -> & ->).
  rewrite Hs, Hms. split; reflexivity.
Qed.

Lemma setHours_aligned (z : Zone) (t : Date) (h mi : Z) :
  whole_minutes z -> aligned (setHours z t h mi 0 0).
Proof.
  intros Hz. unfold setHours. apply (settle_aligned z _ Hz). unfold aligned.
  destruct (makeDate_time (getFullYear t) (getMonth t) (getDate t) h mi 0 0)
    as (_ & _ & -> & ->).
  split; reflexivity.
Qed.

Lemma startCursor_aligned (z : Zone) (now : Date) :
  whole_minutes z -> aligned (startCursor z now).
Proof.
  intros Hz. unfold startCursor. apply (setMinutes_aligned z _ _ Hz).
  unfold setSeconds. apply (settle_aligned z _ Hz). unfold aligned.
  destruct (makeDate_time (getFullYear now) (getMonth now) (getDate now)
              (getHours now) (getMinutes now) 0 0) as (_ & _ & -> & ->).
  split; reflexivity.
Qed.

(** C2.  For a valid expression and any count, on every host:
    [getNextRuns] returns a list (it never throws, whether or not the
    iteration ceiling cuts the search short), and the list has at most
    [count] elements (none for a negative count).  On an orderly host,
    which includes the hosts with daylight saving time, every run is at or
    after the start cursor, the runs are in strictly increasing
    chronological order, and the start cursor lies after the clock unless
    the local time the clock shows is a repeated one that denotes an
    earlier instant.  Where the offsets of the host differ by whole minutes
    the start cursor has seconds and milliseconds zero.  On a host with a
    constant offset the start cursor is the current local time moved to the
    start of the next whole minute, after the clock by at most a minute. *)
Theorem getNextRuns_bounded_ordered
  (z : Zone) (expr : string) (count : Z) (now : Date) :
  wf_date now ->
  validateCron expr = Return (mkValidation true None) ->
  exists rs,
    getNextRuns z expr count now = Return rs
    /\ Z.of_nat (List.length rs) <= Z.max 0 count
    /\ (0 <= count -> Z.of_nat (List.length rs) <= count)
    /\ (orderly z ->
        Forall (fun r => getTime z (startCursor z now) <= getTime z r) rs
        /\ StronglySorted (before z) rs
        /\ (forall clock,
               reads z clock now -> UTC z (LocalTime z clock) = clock ->
               clock < getTime z (startCursor z now)))
    /\ (whole_minutes z ->
        getSeconds (startCursor z now) = 0
        /\ getMilliseconds (startCursor z now) = 0)
    /\ (constant_zone z ->
        localValue (startCursor z now) = localValue now / 60000 * 60000 + 60000
        /\ (forall clock,
               reads z clock now ->
               clock < getTime z (startCursor z now) <= clock + 60000)).
Proof.
  intros Hwf Hvalid.
  destruct (valid_prepare expr Hvalid) as [q Hq].
  unfold getNextRuns. rewrite Hq. cbn [bind].
  generalize (Z.to_nat maxIterations). intros fuel.
  exists (loop fuel z q count (startCursor z now) []).
  split; [reflexivity|].
  assert (Hlen : Z.of_nat (List.length (loop fuel z q count (startCursor z now) []))
                 <= Z.max 0 count) by (apply loop_length; simpl; lia).
  split; [exact Hlen|]. split; [lia|]. split; [|split].
  - intros Hz.
    destruct (loop_chrono fuel z q count (startCursor z now) (startCursor z now)
                [] Hz) as [Hall Hsorted].
    { constructor; [apply startCursor_wf | now apply startCursor_read_back
                    | lia | constructor | constructor]. }
    split; [exact Hall|]. split; [exact Hsorted|].
    intros clock Hreads Hback. now apply startCursor_after_clock.
  - intros Hz. now apply startCursor_aligned.
  - intros Hz.
    destruct (startCursor_spec z now Hz Hwf) as (_ & Hstart & _).
    split; [exact Hstart|].
    destruct (getTime_constant z Hz) as [c Hc].
    intros clock [_ Hread]. rewrite Hc, Hstart, Hread. unfold LocalTime.
    destruct Hz as [c' Hc'].
    assert (Hcc : c' = c).
    { specialize (Hc now). unfold getTime, UTC in Hc.
      rewrite (proj2 (Hc' (localValue now))) in Hc. lia. }
    rewrite (proj1 (Hc' clock)), Hcc. Z.div_mod_to_equations. lia.
Qed.

Lemma getNextRuns_bounded_ordered_witness :
  exists rs,
    getNextRuns (fixedZone 0) "0 9 1 * 1" 5 (mkDate 2026 10 2 10 30 15 123)
    = Return rs
    /\ Z.of_nat (List.length rs) <= Z.max 0 5
    /\ (0 <= 5 -> Z.of_nat (List.length rs) <= 5)
    /\ (orderly (fixedZone 0) ->
        Forall (fun r => getTime (fixedZone 0)
                           (startCursor (fixedZone 0)
                              (mkDate 2026 10 2 10 30 15 123))
                         <= getTime (fixedZone 0) r) rs
        /\ StronglySorted (before (fixedZone 0)) rs
        /\ (forall clock,
               reads (fixedZone 0) clock (mkDate 2026 10 2 10 30 15 123) ->
               UTC (fixedZone 0) (LocalTime (fixedZone 0) clock) = clock ->
               clock < getTime (fixedZone 0)
                         (startCursor (fixedZone 0)
                            (mkDate 2026 10 2 10 30 15 123))))
    /\ (whole_minutes (fixedZone 0) ->
        getSeconds (startCursor (fixedZone 0) (mkDate 2026 10 2 10 30 15 123)) = 0
        /\ getMilliseconds
             (startCursor (fixedZone 0) (mkDate 2026 10 2 10 30 15 123)) = 0)
    /\ (constant_zone (fixedZone 0) ->
        localValue (startCursor (fixedZone 0) (mkDate 2026 10 2 10 30 15 123))
        = localValue (mkDate 2026 10 2 10 30 15 123) / 60000 * 60000 + 60000
        /\ (forall clock,
               reads (fixedZone 0) clock (mkDate 2026 10 2 10 30 15 123) ->
               clock < getTime (fixedZone 0)
                         (startCursor (fixedZone 0)
                            (mkDate 2026 10 2 10 30 15 123))
               <= clock + 60000)).
Proof.
  apply (getNextRuns_bounded_ordered (fixedZone 0) "0 9 1 * 1" 5
           (mkDate 2026 10 2 10 30 15 123)).
  - unfold wf_date, wf_day. vm_compute. intuition discriminate.
  - vm_compute. reflexivity.
Defined.

(** C2, as stated, fails on a host with daylight saving time.  On the host
    of [fallBackZone], at 06:30:15 UTC, the getters read 01:30:15;
    [setSeconds] takes these fields for the first 01:30 of the day, so the
    search for ["* * * * *"] returns the run 01:31, which is the instant
    05:31 UTC: before the clock, hence not at or after the current time
    rounded up to the next minute. *)
Lemma getNextRuns_run_before_clock :
  validateCron "* * * * *" = Return (mkValidation true None)
  /\ reads fallBackZone fallBackClock fallBackNow
  /\ getNextRuns fallBackZone "* * * * *" 1 fallBackNow
     = Return [mkDate 2026 10 1 1 31 0 0]
  /\ getTime fallBackZone (mkDate 2026 10 1 1 31 0 0) < fallBackClock
  /\ ~ Forall (fun r => fallBackClock / 60000 * 60000 + 60000
                        <= getTime fallBackZone r)
              [mkDate 2026 10 1 1 31 0 0].
Proof.
  split; [vm_compute; reflexivity|].
  split; [split; [unfold wf_date, wf_day; vm_compute; intuition discriminate
                 | vm_compute; reflexivity]|].
  split; [vm_compute; reflexivity|].
  split; [vm_compute; reflexivity|].
  intros H. apply Forall_inv in H. vm_compute in H. now apply H.
Qed.

(** No February has a 30th day: on every host the search for
    ["0 0 30 2 *"] runs to the iteration ceiling and returns the empty
    list. *)
Example getNextRuns_february_30 (z : Zone) (count : Z) (now : Date) :
  getNextRuns z "0 0 30 2 *" count now = Return [].
Proof.
  set (q := mkSearch [0] [0] [30] [2] (interval 0 6) false true).
  assert (Hq : prepare "0 0 30 2 *" = Return q) by (vm_compute; reflexivity).
  unfold getNextRuns. rewrite Hq. cbn [bind]. f_equal.
  pose proof (loop_matches (Z.to_nat maxIterations) z q count
                (startCursor z now) [] (startCursor_wf z now)
                (Forall_nil _)) as Hall.
  destruct (loop (Z.to_nat maxIterations) z q count (startCursor z now) [])
    as [|r rs]; [reflexivity|]. exfalso.
  apply Forall_inv in Hall. destruct Hall as (Hr & Hm).
  unfold matches in Hm. apply andb_true_iff in Hm as [Hm _].
  apply andb_true_iff in Hm as [Hm Hday].
  apply andb_true_iff in Hm as [Hmon _].
  apply includesZ_In in Hmon. simpl in Hmon.
  unfold dayMatch in Hday. simpl in Hday.
  rewrite orb_false_r in Hday. apply Z.eqb_eq in Hday.
  destruct Hr as [[_ Hd] _].
  assert (Hfeb : getMonth r = 1) by lia. rewrite Hfeb in Hd.
  unfold daysInMonth in Hd. simpl in Hd.
  destruct (isLeap (getFullYear r)); lia.
Qed.

(** The weekday advances by one, modulo 7, from a day to the next. *)
Lemma weekday_nextDay (y m d : Z) :
  wf_day (y, m, d) ->
  let '(y', m', d') := nextDay (y, m, d) in
  getDay (mkDate y' m' d' 0 0 0 0) = (getDay (mkDate y m d 0 0 0 0) + 1) mod 7.
Proof.
  intros Hwf. destruct (nextDay_spec _ Hwf) as [_ Hnum].
  destruct (nextDay (y, m, d)) as [[y' m'] d'].
  unfold getDay. simpl getFullYear. simpl getMonth. simpl getDate.
  rewrite Hnum. generalize (dayNumber (y, m, d)). intros D.
  Z.div_mod_to_equations. lia.
Qed.

(** Known weekdays: Thursday 1 January 1970, Tuesday 29 February 2000,
    Monday 2 November 2026. *)
Example getDay_known :
  getDay (mkDate 1970 0 1 0 0 0 0) = 4
  /\ getDay (mkDate 2000 1 29 12 0 0 0) = 2
  /\ getDay (mkDate 2026 10 2 10 30 15 123) = 1.
Proof. repeat split. Qed.

(* ================================================================== *)
(** ** The examples of the README *)
(* ================================================================== *)

Example readme_explain :
  explainCron "*/5 * * * *" = Return "every 5 minutes of every hour"
  /\ explainCron "0 9 * * 1-5"
     = Return "at minute 0 at 9:00 AM on Monday through Friday"
  /\ explainCron "30 2 * * 0" = Return "at minute 30 at 2:00 AM on Sunday"
  /\ explainCron "0 0 1 jan,MAR *"
     = Return "at minute 0 at 12:00 AM on day 1 in January, March".
Proof. repeat split; vm_compute; reflexivity. Qed.

Example readme_validate :
  validateCron "0 0 1 * *" = Return (mkValidation true None)
  /\ validateCron "0 25 * * *"
     = Return (mkValidation false (Some "Value 25 out of range [0-23]"))
  /\ validateCron "*/0 * * * *"
     = Return (mkValidation false (Some "Invalid step: */0"))
  /\ validateCron "a-b * * * *"
     = Return (mkValidation false (Some "Invalid range: a-b"))
  /\ validateCron "x * * * *"
     = Return (mkValidation false (Some "Invalid value: x")).
Proof. repeat split; vm_compute; reflexivity. Qed.

Example parseField_terms :
  parseField "1,5-7,*/20" 0 59 = Return (mkParsedField [0; 1; 5; 6; 7; 20; 40] "1,5-7,*/20")
  /\ parseField "10-20/3,50/4" 0 59
     = Return (mkParsedField [10; 13; 16; 19; 50; 54; 58] "10-20/3,50/4")
  /\ parseField "1.5-3" 0 59 = Unmodelled.
Proof. repeat split; vm_compute; reflexivity. Qed.

(* ================================================================== *)
(** ** [parseField]: what a parsed field holds *)
(* ================================================================== *)

Lemma set_add_NoDup (i : Z) (vs : list Z) : NoDup vs -> NoDup (set_add i vs).
Proof.
  intros H. unfold set_add. destruct (existsb (Z.eqb i) vs) eqn:E; [exact H|].
  apply NoDup_app; [exact H | repeat constructor; intros [] |].
  intros v Hv [<-|[]]. apply includesZ_In in Hv. unfold includesZ in Hv. congruence.
Qed.

Lemma for_add_NoDup (n : nat) :
  forall i e step vs, NoDup vs -> NoDup (for_add n i e step vs).
Proof.
  induction n as [|n IH]; intros i e step vs H; simpl; [exact H|].
  destruct (i <=? e); [|exact H]. apply IH. now apply set_add_NoDup.
Qed.

Lemma for_loop_NoDup (a b : num) (step : Z) (vs : list Z) :
  NoDup vs -> NoDup (for_loop a b step vs).
Proof.
  intros H. destruct a as [|i], b as [|j]; simpl; try exact H.
  now apply for_add_NoDup.
Qed.

(** [parseTerm] is [termEffect] run on the set. *)
Lemma parseTerm_effect (part : string) (min max : Z) (vs : list Z) :
  parseTerm part min max vs
  = (e <- termEffect part min max ;; Return (runEffect e vs)).
Proof.
  unfold parseTerm, termEffect.
  destruct (String.eqb part "*"); [reflexivity|].
  destruct (includes "/"%char part).
  - destruct (first_two (split "/"%char part)) as [range stepStr].
    destruct (parseInt10 stepStr) as [[|st]| |]; try reflexivity. cbn [bind].
    destruct (st <=? 0); [reflexivity|].
    destruct (String.eqb range "*"); [reflexivity|].
    destruct (includes "-"%char range).
    + destruct (first_two (split "-"%char range)) as [a b].
      destruct (Number a); try reflexivity. cbn [bind].
      destruct (Number b); reflexivity.
    + destruct (parseInt10 range); reflexivity.
  - destruct (includes "-"%char part).
    + destruct (first_two (split "-"%char part)) as [a b].
      destruct (Number a) as [na| |]; try reflexivity. cbn [bind].
      destruct (Number b) as [nb| |]; try reflexivity. cbn [bind].
      destruct (isNaN na || isNaN nb); reflexivity.
    + destruct (parseInt10 part) as [[|z]| |]; reflexivity.
Qed.

(** Every loop a term runs has a positive step. *)
Lemma termEffect_step (part : string) (min max : Z) (a b : num) (st : Z) :
  termEffect part min max = Return (Loop a b st) -> 0 < st.
Proof.
  unfold termEffect.
  destruct (String.eqb part "*"); [intros [= _ _ <-]; lia|].
  destruct (includes "/"%char part).
  - destruct (first_two (split "/"%char part)) as [range stepStr].
    destruct (parseInt10 stepStr) as [[|s0]| |]; try discriminate. cbn [bind].
    destruct (Z.leb_spec s0 0); [discriminate|].
    destruct (String.eqb range "*"); [intros [= _ _ <-]; lia|].
    destruct (includes "-"%char range).
    + destruct (first_two (split "-"%char range)) as [x y].
      destruct (Number x); try discriminate. cbn [bind].
      destruct (Number y); try discriminate. cbn [bind].
      intros [= _ _ <-]. lia.
    + destruct (parseInt10 range); try discriminate. cbn [bind].
      intros [= _ _ <-]. lia.
  - destruct (includes "-"%char part).
    + destruct (first_two (split "-"%char part)) as [x y].
      destruct (Number x) as [na| |]; try discriminate. cbn [bind].
      destruct (Number y) as [nb| |]; try discriminate. cbn [bind].
      destruct (isNaN na || isNaN nb); [discriminate|].
      intros [= _ _ <-]. lia.
    + destruct (parseInt10 part) as [[|z]| |]; discriminate.
Qed.

Lemma runEffect_NoDup (e : effect) (vs : list Z) :
  NoDup vs -> NoDup (runEffect e vs).
Proof.
  destruct e; simpl; auto using for_loop_NoDup, set_add_NoDup.
Qed.

Lemma parseTerm_NoDup (part : string) (min max : Z) (vs vs' : list Z) :
  NoDup vs -> parseTerm part min max vs = Return vs' -> NoDup vs'.
Proof.
  intros H. rewrite parseTerm_effect.
  destruct (termEffect part min max); simpl; try discriminate.
  intros [= <-]. now apply runEffect_NoDup.
Qed.

Lemma parseTerms_NoDup (parts : list string) (min max : Z) :
  forall vs vs', NoDup vs -> parseTerms parts min max vs = Return vs' -> NoDup vs'.
Proof.
  induction parts as [|p parts IH]; intros vs vs' H; simpl.
  - now intros [= <-].
  - destruct (parseTerm p min max vs) as [us| |] eqn:E; simpl; try discriminate.
    apply IH. now apply (parseTerm_NoDup p min max vs).
Qed.

Lemma insert_sorted_strict (x : Z) (l : list Z) :
  StronglySorted Z.lt l -> ~ In x l -> StronglySorted Z.lt (insert_sorted x l).
Proof.
  induction 1 as [|y l Hl IH Hy]; simpl; intros Hx.
  - repeat constructor.
  - assert (x <> y) by (intros ->; apply Hx; now left).
    assert (~ In x l) by (intros Hin; apply Hx; now right).
    destruct (x <=? y) eqn:E.
    + apply Z.leb_le in E. constructor; [now constructor|].
      constructor; [lia|].
      rewrite Forall_forall in *. intros v Hv. specialize (Hy v Hv). lia.
    + apply Z.leb_gt in E. constructor; [now apply IH|].
      rewrite Forall_forall in *. intros v Hv.
      apply insert_sorted_In in Hv as [->|Hv]; [lia | now apply Hy].
Qed.

Lemma sort_strict (l : list Z) : NoDup l -> StronglySorted Z.lt (sort l).
Proof.
  induction 1 as [|x l Hx Hl IH]; simpl; [constructor|].
  apply insert_sorted_strict; [exact IH|]. now rewrite sort_In.
Qed.

Lemma parseField_returns_sorted
  (text : string) (min max : Z) (f : ParsedField) :
  parseField text min max = Return f ->
  raw f = text
  /\ StronglySorted Z.lt (values f)
  /\ forall v, In v (values f) -> min <= v <= max.
Proof.
  unfold parseField.
  destruct (parseTerms (split ","%char text) min max []) as [vs| |] eqn:E;
    simpl; try discriminate.
  destruct (find (out_of_range min max) (sort vs)) eqn:Hfind; try discriminate.
  intros [= <-]. simpl. split; [reflexivity|]. split.
  - apply sort_strict.
    apply (parseTerms_NoDup (split ","%char text) min max [] vs);
      [constructor | exact E].
  - intros v Hv. rewrite find_none_iff in Hfind. specialize (Hfind v Hv).
    unfold out_of_range in Hfind. apply orb_false_iff in Hfind as [H1 H2].
    apply Z.ltb_ge in H1. apply Z.ltb_ge in H2. lia.
Qed.

(** A field that parses keeps its text, and its values are in strictly
    ascending order (so without duplicates) and all within the bounds. *)
Theorem parseField_values_sorted_in_range
  (text : string) (min max : Z) (f : ParsedField) :
  parseField text min max = Return f ->
  raw f = text
  /\ StronglySorted Z.lt (values f)
  /\ forall v, In v (values f) -> min <= v <= max.
Proof. apply parseField_returns_sorted. Qed.

Lemma parseField_values_sorted_in_range_witness :
  raw (mkParsedField [0; 1; 5; 6; 7; 20; 40] "7,1,5-7,*/20,1") = "7,1,5-7,*/20,1"
  /\ StronglySorted Z.lt [0; 1; 5; 6; 7; 20; 40]
  /\ forall v, In v [0; 1; 5; 6; 7; 20; 40] -> 0 <= v <= 59.
Proof.
  apply (parseField_values_sorted_in_range "7,1,5-7,*/20,1" 0 59
           (mkParsedField [0; 1; 5; 6; 7; 20; 40] "7,1,5-7,*/20,1")).
  reflexivity.
Defined.

(* ================================================================== *)
(** ** [parseField]: the values of each form of term *)
(* ================================================================== *)

Lemma step_congruence (i st v : Z) :
  0 < st ->
  (v = i \/ (i + st <= v /\ (v - (i + st)) mod st = 0))
  <-> (i <= v /\ (v - i) mod st = 0).
Proof.
  intros Hst.
  assert (Hshift : (v - (i + st)) mod st = (v - i) mod st).
  { replace (v - (i + st)) with (v - i + (-1) * st) by lia.
    apply Z.mod_add. lia. }
  rewrite Hshift. split.
  - intros [->|[Hle Hmod]]; [|split; [lia | exact Hmod]].
    split; [lia|]. now rewrite Z.sub_diag, Z.mod_0_l by lia.
  - intros [Hle Hmod].
    destruct (Z.eq_dec v i) as [->|Hne]; [now left | right].
    split; [|exact Hmod].
    apply Z.mod_divide in Hmod; [|lia]. destruct Hmod as [k Hk].
    assert (Hk1 : 1 <= k).
    { destruct (Z.le_gt_cases 1 k) as [H|H]; [exact H | exfalso].
      assert (k * st <= 0) by (apply Z.mul_nonpos_nonneg; lia). lia. }
    assert (st <= k * st) by (rewrite <- (Z.mul_1_l st) at 1;
                              apply Z.mul_le_mono_nonneg_r; lia).
    lia.
Qed.

Lemma for_add_In (n : nat) :
  forall (i e st : Z) (vs : list Z) (v : Z),
    0 < st -> (Z.to_nat (e - i + 1) <= n)%nat ->
    (In v (for_add n i e st vs)
     <-> In v vs \/ (i <= v <= e /\ (v - i) mod st = 0)).
Proof.
  induction n as [|n IH]; intros i e st vs v Hst Hn; simpl.
  - split; [now left | intros [H|H]; [exact H | lia]].
  - destruct (Z.leb_spec i e) as [Hie|Hie].
    + rewrite IH, set_add_In by lia.
      pose proof (step_congruence i st v Hst) as Hc.
      split.
      * intros [[->|H]|[H1 H2]]; [right | now left | right].
        -- split; [lia|]. apply Hc. now left.
        -- split; [lia|]. apply Hc. right. split; [lia | exact H2].
      * intros [H|[H1 H2]]; [left; now right|].
        destruct (proj2 Hc (conj (proj1 H1) H2)) as [->|[H3 H4]];
          [left; now left | right; split; [lia | exact H4]].
    + split; [now left | intros [H|H]; [exact H | lia]].
Qed.

Lemma runEffect_In (e : effect) (vs : list Z) (v : Z) :
  positive_step e ->
  (In v (runEffect e vs) <-> In v vs \/ contributes e v).
Proof.
  destruct e as [[|i] [|j] st|z]; simpl; try tauto.
  - intros Hst. apply for_add_In; [exact Hst | lia].
  - intros _. rewrite set_add_In. tauto.
Qed.

Lemma termEffect_positive (part : string) (min max : Z) (e : effect) :
  termEffect part min max = Return e -> positive_step e.
Proof.
  destruct e as [a b st|z]; simpl; [|trivial]. apply termEffect_step.
Qed.

Lemma parseTerms_effects (parts : list string) (min max : Z) :
  forall vs,
    parseTerms parts min max vs
    = (es <- termEffects parts min max ;;
       Return (fold_left (fun set e => runEffect e set) es vs)).
Proof.
  induction parts as [|p parts IH]; intros vs; simpl; [reflexivity|].
  rewrite parseTerm_effect.
  destruct (termEffect p min max) as [e| |]; simpl; try reflexivity.
  rewrite IH. destruct (termEffects parts min max); reflexivity.
Qed.

Lemma termEffects_positive (parts : list string) (min max : Z) :
  forall es, termEffects parts min max = Return es -> Forall positive_step es.
Proof.
  induction parts as [|p parts IH]; simpl; intros es.
  - intros [= <-]. constructor.
  - destruct (termEffect p min max) as [e| |] eqn:E; simpl; try discriminate.
    destruct (termEffects parts min max) as [es'| |]; simpl; try discriminate.
    intros [= <-]. constructor; [now apply (termEffect_positive p min max)|].
    now apply IH.
Qed.

Lemma termEffects_app (l1 l2 : list string) (min max : Z) :
  termEffects (l1 ++ l2) min max
  = (es1 <- termEffects l1 min max ;;
     es2 <- termEffects l2 min max ;;
     Return (es1 ++ es2)%list).
Proof.
  induction l1 as [|p l1 IH]; simpl.
  - destruct (termEffects l2 min max); reflexivity.
  - destruct (termEffect p min max); simpl; try reflexivity.
    rewrite IH. destruct (termEffects l1 min max); simpl; try reflexivity.
    destruct (termEffects l2 min max); reflexivity.
Qed.

Lemma fold_effects_In (es : list effect) :
  forall (vs : list Z) (v : Z),
    Forall positive_step es ->
    (In v (fold_left (fun set e => runEffect e set) es vs)
     <-> In v vs \/ Exists (fun e => contributes e v) es).
Proof.
  induction es as [|e es IH]; intros vs v Hpos; simpl.
  - rewrite Exists_nil. tauto.
  - inversion Hpos; subst. rewrite IH, runEffect_In, Exists_cons by assumption.
    tauto.
Qed.

(** A field is decided by the effects of its terms: it parses when every
    term has an effect and all the values they contribute are in range. *)
Lemma parseField_effects (text : string) (min max : Z) (es : list effect) :
  termEffects (split ","%char text) min max = Return es ->
  (forall v, Exists (fun e => contributes e v) es -> min <= v <= max) ->
  exists f,
    parseField text min max = Return f
    /\ forall v, In v (values f) <-> Exists (fun e => contributes e v) es.
Proof.
  intros Hes Hrange. unfold parseField.
  rewrite parseTerms_effects, Hes. cbn [bind].
  set (vs := fold_left (fun set e => runEffect e set) es []).
  assert (Hin : forall v, In v vs <-> Exists (fun e => contributes e v) es).
  { intros v. unfold vs.
    rewrite fold_effects_In
      by now apply (termEffects_positive (split ","%char text) min max).
    simpl. tauto. }
  assert (Hnone : find (out_of_range min max) (sort vs) = None).
  { apply find_none_iff. intros w Hw. apply sort_In, Hin, Hrange in Hw.
    destruct (out_of_range min max w) eqn:E; [|reflexivity].
    apply out_of_range_true in E. lia. }
  rewrite Hnone. eexists. split; [reflexivity|]. simpl.
  intros v. now rewrite sort_In.
Qed.

Lemma parseField_returns_effects (text : string) (min max : Z) (f : ParsedField) :
  parseField text min max = Return f ->
  exists es,
    termEffects (split ","%char text) min max = Return es
    /\ forall v, In v (values f) <-> Exists (fun e => contributes e v) es.
Proof.
  intros Hf.
  pose proof (parseField_returns_sorted text min max f Hf) as (_ & _ & Hr).
  revert Hf. unfold parseField. rewrite parseTerms_effects.
  destruct (termEffects (split ","%char text) min max) as [es| |] eqn:Hes;
    cbn [bind]; try discriminate.
  destruct (find _ _); try discriminate. intros [= <-]. simpl in *.
  exists es. split; [reflexivity|]. intros v.
  rewrite sort_In, fold_effects_In
    by now apply (termEffects_positive (split ","%char text) min max).
  simpl. tauto.
Qed.

Lemma split_nonempty (c : ascii) (s : string) : split c s <> [].
Proof.
  destruct s as [|d s]; simpl; [discriminate|].
  destruct (Ascii.eqb d c); [discriminate|].
  destruct (split c s); discriminate.
Qed.

Lemma split_app (c : ascii) (a b : string) :
  split c (a ++ String c b) = (split c a ++ split c b)%list.
Proof.
  induction a as [|d a IH]; simpl.
  - now rewrite Ascii.eqb_refl.
  - destruct (Ascii.eqb d c); [now rewrite IH|].
    rewrite IH. pose proof (split_nonempty c a).
    destruct (split c a); [contradiction | reflexivity].
Qed.

(** The comma is set union: when two fields parse, so does their
    comma-joined text, and its values are those of the one or the other. *)
Theorem parseField_comma_union
  (r1 r2 : string) (min max : Z) (f1 f2 : ParsedField) :
  parseField r1 min max = Return f1 ->
  parseField r2 min max = Return f2 ->
  exists f,
    parseField (r1 ++ "," ++ r2) min max = Return f
    /\ forall v, In v (values f) <-> In v (values f1) \/ In v (values f2).
Proof.
  intros H1 H2.
  destruct (parseField_returns_effects _ _ _ _ H1) as (es1 & He1 & Hin1).
  destruct (parseField_returns_effects _ _ _ _ H2) as (es2 & He2 & Hin2).
  pose proof (parseField_returns_sorted _ _ _ _ H1) as (_ & _ & Hr1).
  pose proof (parseField_returns_sorted _ _ _ _ H2) as (_ & _ & Hr2).
  destruct (parseField_effects (r1 ++ "," ++ r2) min max (es1 ++ es2)) as (f & Hf & Hin).
  - simpl append. rewrite split_app, termEffects_app, He1, He2. reflexivity.
  - intros v Hv. apply Exists_app in Hv as [Hv|Hv];
      [apply Hr1, Hin1 | apply Hr2, Hin2]; exact Hv.
  - exists f. split; [exact Hf|]. intros v.
    rewrite Hin, Exists_app, Hin1, Hin2. tauto.
Qed.

Lemma parseField_comma_union_witness :
  exists f,
    parseField ("1-5/2" ++ "," ++ "*/20") 0 59 = Return f
    /\ forall v, In v (values f) <-> In v [1; 3; 5] \/ In v [0; 20; 40].
Proof.
  apply (parseField_comma_union "1-5/2" "*/20" 0 59
           (mkParsedField [1; 3; 5] "1-5/2") (mkParsedField [0; 20; 40] "*/20"));
    reflexivity.
Defined.

(** A term that throws is reported as soon as the terms before it parse,
    whatever values they contributed: the range check is not reached. *)
Theorem parseField_term_error_first
  (text : string) (min max : Z) (pre rest : list string) (p : string) (e : Error) :
  split ","%char text = (pre ++ p :: rest)%list ->
  Forall (fun t => returns (parseTerm t min max []) = true) pre ->
  parseTerm p min max [] = Throw e ->
  parseField text min max = Throw e.
Proof.
  intros Hsplit Hpre Hp. unfold parseField.
  rewrite parseTerms_effects, Hsplit, termEffects_app.
  assert (Hes : exists es, termEffects pre min max = Return es).
  { clear Hsplit Hp.
    induction Hpre as [|t pre Ht _ IH]; simpl; [now eexists|].
    rewrite parseTerm_effect in Ht.
    destruct (termEffect t min max); simpl in Ht; try discriminate.
    destruct IH as [es ->]. now eexists. }
  destruct Hes as [es ->]. cbn [bind]. simpl termEffects.
  rewrite parseTerm_effect in Hp.
  destruct (termEffect p min max); simpl in Hp; try discriminate.
  injection Hp as ->. reflexivity.
Qed.

Lemma parseField_term_error_first_witness :
  parseField "70,x,5" 0 59 = Throw (InvalidValue "x").
Proof.
  apply (parseField_term_error_first "70,x,5" 0 59 ["70"] ["5"] "x");
    [reflexivity | repeat constructor | reflexivity].
Defined.

Lemma parseField_one_term (text : string) (min max : Z) (e : effect) :
  includes ","%char text = false ->
  termEffect text min max = Return e ->
  (forall v, contributes e v -> min <= v <= max) ->
  exists f,
    parseField text min max = Return f
    /\ forall v, In v (values f) <-> contributes e v.
Proof.
  intros Hc He Hr.
  destruct (parseField_effects text min max [e]) as (f & Hf & Hin).
  - rewrite (split_no_sep _ _ Hc). simpl. now rewrite He.
  - intros v Hv. apply Hr. inversion Hv; subst; [assumption|].
    match goal with H : Exists _ [] |- _ => inversion H end.
  - exists f. split; [exact Hf|]. intros v. rewrite Hin. split.
    + intros Hv. inversion Hv; subst; [assumption|].
      match goal with H : Exists _ [] |- _ => inversion H end.
    + intros Hv. now constructor.
Qed.

Section TermForms.

Variables (min max : Z) (s : string) (st : Z).
Hypothesis Hs : atom s.
Hypothesis Hst : parseInt10 s = Return (Num st).
Hypothesis Hpos : 0 < st.

Lemma step_test : (st <=? 0) = false.
Proof. apply Z.leb_gt. exact Hpos. Qed.

Lemma termEffect_wildcard_step :
  termEffect ("*/" ++ s) min max = Return (Loop (Num min) (Num max) st).
Proof.
  unfold termEffect. simpl append. cbn [String.eqb Ascii.eqb Bool.eqb].
  simpl. rewrite (split_no_sep _ s) by now apply atom_slash.
  simpl. rewrite Hst. simpl. now rewrite step_test.
Qed.

Lemma termEffect_range_step (a b : string) (na nb : num) :
  atom a -> atom b -> Number a = Return na -> Number b = Return nb ->
  termEffect (a ++ "-" ++ b ++ "/" ++ s) min max = Return (Loop na nb st).
Proof.
  intros Ha Hb Hna Hnb. unfold termEffect.
  rewrite (eqb_star_false _ "-"%char)
    by (simpl append; apply includes_sep_mid || reflexivity).
  replace (a ++ "-" ++ b ++ "/" ++ s) with ((a ++ String "-" b) ++ String "/" s)
    by (rewrite append_assoc; reflexivity).
  assert (Hr : includes "/"%char (a ++ String "-" b) = false) by now includes_atoms.
  rewrite includes_sep_mid, (split_app_sep _ _ _ Hr).
  rewrite (split_no_sep _ s) by now apply atom_slash.
  simpl. rewrite Hst. simpl. rewrite step_test.
  rewrite (eqb_star_false _ "-"%char) by (apply includes_sep_mid || reflexivity).
  rewrite includes_sep_mid, split_app_sep by now apply atom_dash.
  rewrite (split_no_sep _ b) by now apply atom_dash.
  simpl. rewrite Hna. simpl. rewrite Hnb. reflexivity.
Qed.

Lemma termEffect_start_step (a : string) (n : num) :
  atom a -> a <> "*" -> parseInt10 a = Return n ->
  termEffect (a ++ "/" ++ s) min max = Return (Loop n (Num max) st).
Proof.
  intros Ha Hstar Hn. unfold termEffect. simpl append.
  rewrite (eqb_star_false _ "/"%char) by (apply includes_sep_mid || reflexivity).
  rewrite includes_sep_mid, split_app_sep by now apply atom_slash.
  rewrite (split_no_sep _ s) by now apply atom_slash.
  simpl. rewrite Hst. simpl. rewrite step_test.
  apply String.eqb_neq in Hstar. rewrite Hstar.
  rewrite (atom_dash a Ha), Hn. reflexivity.
Qed.

(** The field ["*/S"] holds every S-th value counted from [min] (not the
    multiples of S), up to [max]. *)
Theorem parseField_wildcard_step :
  exists f,
    parseField ("*/" ++ s) min max = Return f
    /\ forall v, In v (values f) <-> min <= v <= max /\ (v - min) mod st = 0.
Proof.
  apply (parseField_one_term _ min max (Loop (Num min) (Num max) st)).
  - simpl. now apply atom_comma.
  - apply termEffect_wildcard_step.
  - simpl. tauto.
Qed.

(** A range whose numeric bounds lie within the field bounds holds the
    integers between them, and with a step every S-th of them counted from
    the lower bound. *)
Theorem parseField_range_values (a b : string) (x y : Z) :
  atom a -> atom b ->
  Number a = Return (Num x) -> Number b = Return (Num y) ->
  min <= x -> y <= max ->
  (exists f,
      parseField (a ++ "-" ++ b) min max = Return f
      /\ forall v, In v (values f) <-> x <= v <= y)
  /\ (exists f,
         parseField (a ++ "-" ++ b ++ "/" ++ s) min max = Return f
         /\ forall v, In v (values f) <-> x <= v <= y /\ (v - x) mod st = 0).
Proof.
  intros Ha Hb Hx Hy Hmin Hmax. split.
  - destruct (parseField_one_term (a ++ "-" ++ b) min max (Loop (Num x) (Num y) 1))
      as (f & Hf & Hin).
    + now includes_atoms.
    + unfold termEffect. simpl append.
      rewrite (eqb_star_false _ "-"%char) by (apply includes_sep_mid || reflexivity).
      assert (Hsl : includes "/"%char (a ++ String "-" b) = false)
        by now includes_atoms.
      rewrite Hsl, includes_sep_mid, split_app_sep by now apply atom_dash.
      rewrite (split_no_sep _ b) by now apply atom_dash.
      simpl. rewrite Hx. simpl. rewrite Hy. reflexivity.
    + simpl. lia.
    + exists f. split; [exact Hf|]. intros v. rewrite Hin. simpl.
      rewrite Z.mod_1_r. tauto.
  - apply (parseField_one_term _ min max (Loop (Num x) (Num y) st)).
    + now includes_atoms.
    + now apply termEffect_range_step.
    + simpl. lia.
Qed.

(** The field ["A/S"] runs from A to the upper bound of the field by S; a
    start above that bound gives the empty set, not an error. *)
Theorem parseField_start_step (a : string) (x : Z) :
  atom a -> a <> "*" -> parseInt10 a = Return (Num x) -> min <= x ->
  exists f,
    parseField (a ++ "/" ++ s) min max = Return f
    /\ forall v, In v (values f) <-> x <= v <= max /\ (v - x) mod st = 0.
Proof.
  intros Ha Hstar Hx Hmin.
  apply (parseField_one_term _ min max (Loop (Num x) (Num max) st)).
  - now includes_atoms.
  - now apply termEffect_start_step.
  - simpl. lia.
Qed.

End TermForms.

Lemma parseField_wildcard_step_witness :
  exists f,
    parseField ("*/" ++ "2") 1 31 = Return f
    /\ forall v, In v (values f) <-> 1 <= v <= 31 /\ (v - 1) mod 2 = 0.
Proof.
  apply (parseField_wildcard_step 1 31 "2" 2);
    solve [repeat split | reflexivity | lia].
Defined.

Lemma parseField_range_values_witness :
  (exists f,
      parseField ("10" ++ "-" ++ "20") 0 59 = Return f
      /\ forall v, In v (values f) <-> 10 <= v <= 20)
  /\ (exists f,
         parseField ("10" ++ "-" ++ "20" ++ "/" ++ "3") 0 59 = Return f
         /\ forall v, In v (values f) <-> 10 <= v <= 20 /\ (v - 10) mod 3 = 0).
Proof.
  apply (parseField_range_values 0 59 "3" 3);
    solve [repeat split | reflexivity | lia].
Defined.

Lemma parseField_start_step_witness :
  exists f,
    parseField ("70" ++ "/" ++ "5") 0 59 = Return f
    /\ forall v, In v (values f) <-> 70 <= v <= 59 /\ (v - 70) mod 5 = 0.
Proof.
  apply (parseField_start_step 0 59 "5" 5);
    solve [repeat split | reflexivity | lia | discriminate].
Defined.

(** The three syntax errors: a step that is not a positive integer, whatever
    stands before the slash; a range with a bound that is not a number; a
    single value that is not a number (the empty term included). *)
Theorem parseTerm_malformed (min max : Z) (vs : list Z) :
  (forall (r s : string) (n : num),
      includes "/"%char r = false -> includes "/"%char s = false ->
      parseInt10 s = Return n ->
      (n = NaN \/ exists z, n = Num z /\ z <= 0) ->
      parseTerm (r ++ "/" ++ s) min max vs = Throw (InvalidStep (r ++ "/" ++ s)))
  /\ (forall (a b : string) (na nb : num),
         atom a -> atom b -> Number a = Return na -> Number b = Return nb ->
         isNaN na || isNaN nb = true ->
         parseTerm (a ++ "-" ++ b) min max vs = Throw (InvalidRange (a ++ "-" ++ b)))
  /\ (forall p : string,
         includes "/"%char p = false -> includes "-"%char p = false ->
         p <> "*" -> parseInt10 p = Return NaN ->
         parseTerm p min max vs = Throw (InvalidValue p)).
Proof.
  split; [|split].
  - intros r s n Hr Hs Hn Hbad. unfold parseTerm. simpl append.
    rewrite (eqb_star_false _ "/"%char) by (apply includes_sep_mid || reflexivity).
    rewrite includes_sep_mid, (split_app_sep _ _ _ Hr), (split_no_sep _ _ Hs).
    simpl. rewrite Hn. simpl.
    destruct Hbad as [->|[z [-> Hz]]]; [reflexivity|].
    now rewrite (proj2 (Z.leb_le z 0) Hz).
  - intros a b na nb Ha Hb Hna Hnb Hnan. unfold parseTerm. simpl append.
    rewrite (eqb_star_false _ "-"%char) by (apply includes_sep_mid || reflexivity).
    assert (Hsl : includes "/"%char (a ++ String "-" b) = false) by now includes_atoms.
    rewrite Hsl, includes_sep_mid, split_app_sep by now apply atom_dash.
    rewrite (split_no_sep _ b) by now apply atom_dash.
    simpl. rewrite Hna. simpl. rewrite Hnb. simpl. now rewrite Hnan.
  - intros p Hsl Hd Hstar Hn. unfold parseTerm.
    apply String.eqb_neq in Hstar. now rewrite Hstar, Hsl, Hd, Hn.
Qed.

Lemma parseTerm_malformed_witness :
  parseTerm ("1-5" ++ "/" ++ "0") 0 59 [] = Throw (InvalidStep ("1-5" ++ "/" ++ "0"))
  /\ parseTerm ("1" ++ "-" ++ "x") 0 59 [] = Throw (InvalidRange ("1" ++ "-" ++ "x"))
  /\ parseTerm "" 0 59 [] = Throw (InvalidValue "").
Proof.
  destruct (parseTerm_malformed 0 59 []) as (H1 & H2 & H3).
  split; [|split].
  - apply (H1 "1-5" "0" (Num 0)); try reflexivity. right. exists 0. split; [reflexivity | lia].
  - apply (H2 "1" "x" (Num 1) NaN); solve [repeat split | reflexivity].
  - apply (H3 ""); solve [reflexivity | discriminate].
Defined.

(* ================================================================== *)
(** ** The scheduler: what the runs are *)
(* ================================================================== *)

Lemma iteration_aligned (z : Zone) (q : Search) (cur : Date) (res : list Date) :
  whole_minutes z -> aligned cur -> aligned (fst (iteration z q cur res)).
Proof.
  intros Hz H. unfold iteration.
  destruct (includesZ (months q) (getMonth cur + 1)); simpl;
    [|now apply setHours_aligned].
  destruct (includesZ (hours q) (getHours cur)); simpl;
    [|apply setMinutes_aligned; [exact Hz | now apply setHours_aligned]].
  destruct (dayMatch q (getDate cur) (getDay cur)); simpl;
    [|now apply setHours_aligned].
  now apply setMinutes_aligned.
Qed.

Lemma iteration_results (z : Zone) (q : Search) (cur : Date) (res : list Date) :
  snd (iteration z q cur res) = res
  \/ snd (iteration z q cur res) = (res ++ [cur])%list.
Proof.
  destruct (iteration_records z q cur res) as [H|[H _]]; auto.
Qed.

Lemma loop_aligned (fuel : nat) :
  forall z q count cur res,
    whole_minutes z ->
    aligned cur -> Forall aligned res ->
    Forall aligned (loop fuel z q count cur res).
Proof.
  induction fuel as [|fuel IH]; intros z q count cur res Hz Hc Hr; simpl;
    [exact Hr|].
  destruct (Z.of_nat (List.length res) <? count); [|exact Hr].
  pose proof (iteration_aligned z q cur res Hz Hc) as Hc'.
  pose proof (iteration_results z q cur res) as Hres.
  destruct (iteration z q cur res) as [cur' res']. simpl in *.
  apply IH; [exact Hz | exact Hc'|].
  destruct Hres as [->| ->]; [exact Hr|].
  apply Forall_app. split; [exact Hr | now constructor].
Qed.

(** On every host, every run returned is a calendar date whose minute,
    hour and month are among the parsed values of their fields and whose
    day passes the day test; and where the offsets of the host differ by
    whole minutes, every run is on a whole minute. *)
Theorem getNextRuns_runs_match
  (z : Zone) (expr : string) (count : Z) (now : Date) (q : Search)
  (rs : list Date) :
  wf_date now -> prepare expr = Return q ->
  getNextRuns z expr count now = Return rs ->
  Forall (fun r =>
            wf_date r
            /\ In (getMinutes r) (minutes q)
            /\ In (getHours r) (hours q)
            /\ In (getMonth r + 1) (months q)
            /\ dayMatch q (getDate r) (getDay r) = true) rs
  /\ (whole_minutes z ->
      Forall (fun r => getSeconds r = 0 /\ getMilliseconds r = 0) rs).
Proof.
  intros Hwf Hq. unfold getNextRuns. rewrite Hq. cbn [bind].
  intros Hrs. apply Return_inj in Hrs. subst rs. split.
  - pose proof (loop_matches (Z.to_nat maxIterations) z q count
                  (startCursor z now) [] (startCursor_wf z now)
                  (Forall_nil _)) as Hall.
    eapply Forall_impl; [|exact Hall]. simpl. intros r [Hw Hm].
    unfold matches in Hm.
    repeat (apply andb_true_iff in Hm as [Hm ?]).
    repeat split; try assumption; try (now apply includesZ_In); apply Hw.
  - intros Hz.
    apply (loop_aligned (Z.to_nat maxIterations) z q count
             (startCursor z now) [] Hz);
      [now apply startCursor_aligned | constructor].
Qed.

Lemma getNextRuns_runs_match_witness :
  Forall (fun r =>
            wf_date r
            /\ In (getMinutes r) [0]
            /\ In (getHours r) [9]
            /\ In (getMonth r + 1) (interval 1 12)
            /\ dayMatch (mkSearch [0] [9] [1] (interval 1 12) [1] false false)
                 (getDate r) (getDay r) = true)
         [mkDate 2026 10 9 9 0 0 0; mkDate 2026 10 16 9 0 0 0]
  /\ (whole_minutes (fixedZone 0) ->
      Forall (fun r => getSeconds r = 0 /\ getMilliseconds r = 0)
             [mkDate 2026 10 9 9 0 0 0; mkDate 2026 10 16 9 0 0 0]).
Proof.
  apply (getNextRuns_runs_match (fixedZone 0) "0 9 1 * 1" 2
           (mkDate 2026 10 2 10 30 15 123)
           (mkSearch [0] [9] [1] (interval 1 12) [1] false false)).
  - unfold wf_date, wf_day. vm_compute. intuition discriminate.
  - vm_compute. reflexivity.
  - vm_compute. reflexivity.
Defined.

Lemma loop_extends (fuel : nat) :
  forall z q count cur res,
  exists more, loop fuel z q count cur res = (res ++ more)%list.
Proof.
  induction fuel as [|fuel IH]; intros z q count cur res; simpl.
  - exists []. now rewrite app_nil_r.
  - destruct (Z.of_nat (List.length res) <? count);
      [|exists []; now rewrite app_nil_r].
    pose proof (iteration_results z q cur res) as Hres.
    destruct (iteration z q cur res) as [cur' res']. simpl in Hres.
    destruct (IH z q count cur' res') as [more Hmore]. rewrite Hmore.
    destruct Hres as [->| ->]; [now exists more|].
    exists (cur :: more). now rewrite <- app_assoc.
Qed.

Lemma loop_count_prefix (fuel : nat) :
  forall z q c1 c2 cur res,
    c1 <= c2 -> Z.of_nat (List.length res) <= Z.max 0 c1 ->
    loop fuel z q c1 cur res
    = firstn (Z.to_nat c1) (loop fuel z q c2 cur res).
Proof.
  induction fuel as [|fuel IH]; intros z q c1 c2 cur res Hc Hlen; simpl.
  - symmetry. apply firstn_all2. lia.
  - destruct (Z.ltb_spec (Z.of_nat (List.length res)) c1) as [H1|H1].
    + destruct (Z.ltb_spec (Z.of_nat (List.length res)) c2) as [H2|H2]; [|lia].
      pose proof (iteration_results z q cur res) as Hres.
      destruct (iteration z q cur res) as [cur' res']. simpl in Hres.
      apply IH; [exact Hc|].
      destruct Hres as [->| ->]; [lia|]. rewrite length_app. simpl. lia.
    + assert (Hfirst : forall more,
                 firstn (Z.to_nat c1) (res ++ more) = res).
      { intros more. rewrite firstn_app.
        replace (Z.to_nat c1 - List.length res)%nat with O by lia.
        simpl. rewrite app_nil_r. apply firstn_all2. lia. }
      destruct (Z.ltb_spec (Z.of_nat (List.length res)) c2) as [H2|H2].
      * destruct (iteration z q cur res) as [cur' res'] eqn:Hit.
        destruct (loop_extends fuel z q c2 cur' res') as [more ->].
        pose proof (iteration_results z q cur res) as Hres.
        rewrite Hit in Hres. simpl in Hres.
        destruct Hres as [->| ->]; [now rewrite Hfirst|].
        now rewrite <- app_assoc, Hfirst.
      * rewrite <- (app_nil_r res) at 2. now rewrite Hfirst.
Qed.

(** On every host, asking for more runs only extends the list: the runs
    for a smaller count are the first ones of the runs for a larger count,
    from the same clock value. *)
Theorem getNextRuns_count_prefix
  (z : Zone) (expr : string) (c1 c2 : Z) (now : Date) (rs1 rs2 : list Date) :
  c1 <= c2 ->
  getNextRuns z expr c1 now = Return rs1 ->
  getNextRuns z expr c2 now = Return rs2 ->
  rs1 = firstn (Z.to_nat c1) rs2.
Proof.
  intros Hc. unfold getNextRuns.
  destruct (prepare expr) as [q| |]; cbn [bind]; try discriminate.
  intros H1 H2. apply Return_inj in H1, H2. subst rs1 rs2.
  apply loop_count_prefix; [exact Hc | simpl; lia].
Qed.

Lemma getNextRuns_count_prefix_witness :
  [mkDate 2026 10 9 9 0 0 0]
  = firstn (Z.to_nat 1) [mkDate 2026 10 9 9 0 0 0; mkDate 2026 10 16 9 0 0 0].
Proof.
  apply (getNextRuns_count_prefix (fixedZone 0) "0 9 1 * 1" 1 2
           (mkDate 2026 10 2 10 30 15 123)).
  - lia.
  - vm_compute. reflexivity.
  - vm_compute. reflexivity.
Defined.

(* ------------------------------------------------------------------ *)
(** *** No matching minute is skipped *)
(* ------------------------------------------------------------------ *)

(** Months in calendar order are laid out one after the other on the day
    line. *)
Lemma month_order (n : nat) :
  forall y1 m1 y2 m2,
    0 <= m1 <= 11 -> 0 <= m2 <= 11 ->
    Z.to_nat (12 * y2 + m2 - (12 * y1 + m1) - 1) = n ->
    12 * y1 + m1 < 12 * y2 + m2 ->
    dayNumber (y1, m1, 1) + daysInMonth y1 m1 <= dayNumber (y2, m2, 1).
Proof.
  induction n as [|n IH]; intros y1 m1 y2 m2 H1 H2 Hn Hlt;
    pose proof (first_of_next_month y1 m1 H1) as Hnext.
  - assert (y2 = y1 + (m1 + 1) / 12 /\ m2 = (m1 + 1) mod 12) as [-> ->]
      by (Z.div_mod_to_equations; lia).
    lia.
  - assert (Hm' : 0 <= (m1 + 1) mod 12 <= 11)
      by (pose proof (Z.mod_pos_bound (m1 + 1) 12); lia).
    specialize (IH (y1 + (m1 + 1) / 12) ((m1 + 1) mod 12) y2 m2 Hm' H2).
    pose proof (daysInMonth_bounds (y1 + (m1 + 1) / 12) ((m1 + 1) mod 12)).
    assert (Hidx : 12 * (y1 + (m1 + 1) / 12) + (m1 + 1) mod 12 = 12 * y1 + m1 + 1)
      by (Z.div_mod_to_equations; lia).
    rewrite Hidx in IH. rewrite <- Hnext.
    assert (IH' := IH ltac:(lia) ltac:(lia)). lia.
Qed.

(** A day whose number falls within a month is a day of that month. *)
Lemma dayNumber_month (y1 m1 y2 m2 d2 : Z) :
  0 <= m1 <= 11 -> wf_day (y2, m2, d2) ->
  dayNumber (y1, m1, 1) <= dayNumber (y2, m2, d2)
  < dayNumber (y1, m1, 1) + daysInMonth y1 m1 ->
  y2 = y1 /\ m2 = m1.
Proof.
  intros H1 [H2 Hd] Hin.
  assert (Hd2 : dayNumber (y2, m2, d2) = dayNumber (y2, m2, 1) + d2 - 1)
    by (unfold dayNumber; lia).
  destruct (Z.lt_trichotomy (12 * y1 + m1) (12 * y2 + m2)) as [Hlt|[Heq|Hgt]].
  - pose proof (month_order _ y1 m1 y2 m2 H1 H2 eq_refl Hlt). lia.
  - lia.
  - pose proof (month_order _ y2 m2 y1 m1 H2 H1 eq_refl Hgt). lia.
Qed.

Lemma dayNumber_inj (d1 d2 : Day) :
  wf_day d1 -> wf_day d2 -> dayNumber d1 = dayNumber d2 -> d1 = d2.
Proof.
  destruct d1 as [[y1 m1] dd1], d2 as [[y2 m2] dd2]. intros Hw1 Hw2 Heq.
  destruct Hw1 as [Hm1 Hd1].
  assert (Hd : dayNumber (y1, m1, dd1) = dayNumber (y1, m1, 1) + dd1 - 1)
    by (unfold dayNumber; lia).
  destruct (dayNumber_month y1 m1 y2 m2 dd2 Hm1 Hw2) as [-> ->]; [lia|].
  assert (dd1 = dd2) by (unfold dayNumber in Heq; lia). now subst.
Qed.

Lemma localValue_split (t : Date) :
  localValue t = dayNumber (dayOf t) * msPerDay + timeOfDay t.
Proof. unfold localValue, timeOfDay, dayOf. lia. Qed.

Lemma localValue_inj (a b : Date) :
  wf_date a -> wf_date b -> localValue a = localValue b -> a = b.
Proof.
  intros Ha Hb Heq. rewrite !localValue_split in Heq.
  pose proof (timeOfDay_bounds a Ha). pose proof (timeOfDay_bounds b Hb).
  assert (Hday : dayNumber (dayOf a) = dayNumber (dayOf b))
    by (unfold msPerDay in *; lia).
  assert (Htod : timeOfDay a = timeOfDay b) by lia.
  apply dayNumber_inj in Hday; [|apply Ha|apply Hb].
  unfold dayOf in Hday. injection Hday as Hy Hm Hd.
  destruct a, b. unfold wf_date, timeOfDay in *. simpl in *. subst.
  assert (getHours0 = getHours1) by lia.
  assert (getMinutes0 = getMinutes1) by lia.
  assert (getSeconds0 = getSeconds1) by lia.
  assert (getMilliseconds0 = getMilliseconds1) by lia.
  now subst.
Qed.

Lemma constant_whole_minutes (z : Zone) : constant_zone z -> whole_minutes z.
Proof.
  intros [c Hc] a b. rewrite (proj1 (Hc a)), (proj2 (Hc b)), Z.sub_diag.
  reflexivity.
Qed.

(** Where exactly the three jumps land, on a host with a constant
    offset. *)
Section Jumps.

Variable z : Zone.
Hypothesis Hz : constant_zone z.
Variable cur : Date.
Hypothesis Hwf : wf_date cur.

Lemma jump_hour_time :
  localValue (setMinutes z (setHours z cur (getHours cur + 1) 0 0 0) 0)
  = dayNumber (dayOf cur) * msPerDay + (getHours cur + 1) * 3600000.
Proof.
  destruct (setHours_spec z Hz cur Hwf (getHours cur + 1) 0 0 0) as [H1 H2];
    try (unfold wf_date in Hwf; lia).
  destruct (setMinutes_spec z Hz _ H1 0) as [_ H4]; [lia|].
  rewrite H4, H2. rewrite (setHours_constant z Hz).
  destruct (makeDate_time (getFullYear cur) (getMonth cur) (getDate cur)
              (getHours cur + 1) 0 0 0) as (_ & -> & _).
  change ((0 + (0 + 0 / 1000) / 60) mod 60) with 0.
  rewrite localValue_split. lia.
Qed.

Lemma jump_day_time :
  localValue (setHours z (setDate z cur (getDate cur + 1)) 0 0 0 0)
  = (dayNumber (dayOf cur) + 1) * msPerDay.
Proof.
  destruct (setDate_spec z Hz cur Hwf (getDate cur + 1)) as [H1 H2];
    [unfold wf_date, wf_day in Hwf; lia|].
  destruct (setHours_spec z Hz _ H1 0 0 0 0) as [_ H4]; try lia.
  rewrite H4. pose proof (timeOfDay_bounds _ H1). pose proof (timeOfDay_bounds _ Hwf).
  rewrite (localValue_split (setDate z cur (getDate cur + 1))) in *.
  rewrite (localValue_split cur) in H2. unfold msPerDay in *. lia.
Qed.

Lemma jump_month_time :
  localValue (setHours z (setMonth z cur (getMonth cur + 1) 1) 0 0 0 0)
  = (dayNumber (getFullYear cur, getMonth cur, 1)
     + daysInMonth (getFullYear cur) (getMonth cur)) * msPerDay.
Proof.
  destruct (setMonth_spec z Hz cur Hwf (getMonth cur + 1) 1) as [H1 H2]; [lia|].
  destruct (setHours_spec z Hz _ H1 0 0 0 0) as [_ H4]; try lia.
  assert (Hm : 0 <= getMonth cur <= 11) by (unfold wf_date, wf_day in Hwf; lia).
  rewrite (first_of_next_month _ _ Hm) in H2.
  rewrite H4. pose proof (timeOfDay_bounds _ H1). pose proof (timeOfDay_bounds _ Hwf).
  rewrite (localValue_split (setMonth z cur (getMonth cur + 1) 1)) in *.
  unfold msPerDay in *. lia.
Qed.

End Jumps.

(** One round records every matching whole minute it passes over. *)
Lemma iteration_complete (z : Zone) (q : Search) (cur : Date)
  (res : list Date) (t : Date) :
  constant_zone z ->
  wf_date cur -> aligned cur -> wf_date t -> aligned t ->
  matches q t = true ->
  localValue cur <= localValue t < localValue (fst (iteration z q cur res)) ->
  In t (snd (iteration z q cur res)).
Proof.
  intros Hz Hwf Hal Ht Halt Hm. unfold matches in Hm.
  apply andb_true_iff in Hm as [Hm Hmin].
  apply andb_true_iff in Hm as [Hm Hday].
  apply andb_true_iff in Hm as [Hmon Hhour].
  pose proof (timeOfDay_bounds _ Hwf) as Bc.
  pose proof (timeOfDay_bounds _ Ht) as Bt.
  assert (Hfirst : dayNumber (dayOf cur)
                   = dayNumber (getFullYear cur, getMonth cur, 1)
                     + getDate cur - 1)
    by (unfold dayOf, dayNumber; lia).
  assert (Hdc : 1 <= getDate cur <= daysInMonth (getFullYear cur) (getMonth cur))
    by (unfold wf_date, wf_day in Hwf; lia).
  assert (Hmc : 0 <= getMonth cur <= 11)
    by (unfold wf_date, wf_day in Hwf; lia).
  unfold iteration.
  destruct (includesZ (months q) (getMonth cur + 1)) eqn:Emon; cbn [negb fst snd].
  2: { rewrite (jump_month_time z Hz cur Hwf), (localValue_split cur),
         (localValue_split t).
       intros Hin. exfalso.
       destruct (dayNumber_month (getFullYear cur) (getMonth cur)
                   (getFullYear t) (getMonth t) (getDate t) Hmc) as [_ Heq];
         [apply Ht | fold (dayOf t); unfold msPerDay in *; lia|].
       rewrite Heq in Hmon. congruence. }
  destruct (includesZ (hours q) (getHours cur)) eqn:Ehour; cbn [negb fst snd].
  2: { rewrite (jump_hour_time z Hz cur Hwf), (localValue_split cur),
         (localValue_split t).
       intros Hin. exfalso.
       assert (getHours t = getHours cur).
       { unfold timeOfDay, wf_date, msPerDay in *. lia. }
       congruence. }
  destruct (dayMatch q (getDate cur) (getDay cur)) eqn:Eday; cbn [negb fst snd].
  2: { rewrite (jump_day_time z Hz cur Hwf), (localValue_split cur),
         (localValue_split t).
       intros Hin. exfalso.
       assert (Hdn : dayNumber (dayOf t) = dayNumber (dayOf cur))
         by (unfold msPerDay in *; lia).
       assert (Hsame : dayOf t = dayOf cur)
         by (apply dayNumber_inj; [apply Ht | apply Hwf | exact Hdn]).
       unfold dayOf in Hsame. injection Hsame as Hy Hmo Hd.
       unfold getDay in Hday. rewrite Hy, Hmo, Hd in Hday.
       unfold getDay in Eday. congruence. }
  destruct (advance_minute z Hz cur Hwf) as [_ Hnext]. cbn zeta in Hnext.
  rewrite Hnext. intros Hin. clear Hnext.
  assert (Heq : t = cur).
  { apply localValue_inj; try assumption.
    destruct Hal as [Hs Hms], Halt as [Hst Hmst].
    unfold localValue, msPerDay in *. rewrite Hs, Hms, Hst, Hmst in *. lia. }
  subst t. rewrite Hmin. apply in_app_iff. right. now left.
Qed.

(** What the loop keeps true of the minutes it has passed. *)
Lemma loop_complete (fuel : nat) :
  forall (z : Zone) (q : Search) (count : Z) (start cur : Date)
         (res : list Date),
    constant_zone z ->
    wf_date cur -> aligned cur ->
    Forall (fun r => localValue r < localValue cur) res ->
    (forall t, wf_date t -> aligned t -> matches q t = true ->
               localValue start <= localValue t < localValue cur -> In t res) ->
    forall r t,
      In r (loop fuel z q count cur res) ->
      wf_date t -> aligned t -> matches q t = true ->
      localValue start <= localValue t <= localValue r ->
      In t (loop fuel z q count cur res).
Proof.
  induction fuel as [|fuel IH];
    intros z q count start cur res Hz Hwf Hal Hbefore Hpast r t; simpl.
  - intros Hr Ht Halt Hm Hin. apply Hpast; try assumption.
    rewrite Forall_forall in Hbefore. specialize (Hbefore r Hr). lia.
  - destruct (Z.of_nat (List.length res) <? count).
    + destruct (iteration_spec z q cur res Hz Hwf) as (Hwf' & Htime & Hres).
      pose proof (iteration_aligned z q cur res
                    (constant_whole_minutes z Hz) Hal) as Hal'.
      pose proof (fun u Hu Hau Hmu =>
                    iteration_complete z q cur res u Hz Hwf Hal Hu Hau Hmu)
        as Hstep.
      destruct (iteration z q cur res) as [cur' res']. simpl in *.
      apply (IH z q count start cur' res' Hz Hwf' Hal').
      * destruct Hres as [->|[-> _]].
        -- eapply Forall_impl; [|exact Hbefore]. simpl. intros; lia.
        -- apply Forall_app. split.
           ++ eapply Forall_impl; [|exact Hbefore]. simpl. intros; lia.
           ++ constructor; [lia | constructor].
      * intros u Hu Hau Hmu Hin.
        destruct (Z.lt_ge_cases (localValue u) (localValue cur)) as [Hlt|Hge].
        -- assert (In u res) by (apply Hpast; try assumption; lia).
           destruct Hres as [->|[-> _]]; [assumption|].
           apply in_app_iff. now left.
        -- apply Hstep; try assumption. lia.
    + intros Hr Ht Halt Hm Hin. apply Hpast; try assumption.
      rewrite Forall_forall in Hbefore. specialize (Hbefore r Hr). lia.
Qed.

(** On a host whose zone has a constant offset, the jumps over months,
    hours and days never pass over a run: every calendar date on a whole
    minute that passes the tests and lies, in time, between the start
    cursor and a returned run is itself returned. *)
Theorem getNextRuns_no_run_skipped
  (z : Zone) (expr : string) (count : Z) (now : Date) (q : Search)
  (rs : list Date) :
  constant_zone z ->
  wf_date now -> prepare expr = Return q ->
  getNextRuns z expr count now = Return rs ->
  forall r t,
    In r rs ->
    wf_date t -> getSeconds t = 0 -> getMilliseconds t = 0 ->
    matches q t = true ->
    getTime z (startCursor z now) <= getTime z t <= getTime z r ->
    In t rs.
Proof.
  intros Hz Hwf Hq Hrs r t Hr Ht Hs Hms Hm Hin.
  destruct (getTime_constant z Hz) as [c Hc]. rewrite !Hc in Hin.
  revert Hrs. unfold getNextRuns. rewrite Hq. cbn [bind].
  intros Hrs. apply Return_inj in Hrs. subst rs.
  destruct (startCursor_spec z now Hz Hwf) as (Hsw & _ & Hss & Hsms).
  apply (loop_complete _ z q count (startCursor z now) (startCursor z now) []
           Hz Hsw (conj Hss Hsms)) with (r := r);
    try assumption; [constructor | intros; lia | now split | lia].
Qed.

Lemma getNextRuns_no_run_skipped_witness :
  In (mkDate 2026 10 9 9 0 0 0)
     [mkDate 2026 10 9 9 0 0 0; mkDate 2026 10 16 9 0 0 0].
Proof.
  apply (getNextRuns_no_run_skipped (fixedZone 0) "0 9 1 * 1" 2
           (mkDate 2026 10 2 10 30 15 123)
           (mkSearch [0] [9] [1] (interval 1 12) [1] false false)
           [mkDate 2026 10 9 9 0 0 0; mkDate 2026 10 16 9 0 0 0])
    with (r := mkDate 2026 10 16 9 0 0 0).
  - exists 0. intros t. split; reflexivity.
  - unfold wf_date, wf_day. vm_compute. intuition discriminate.
  - vm_compute. reflexivity.
  - vm_compute. reflexivity.
  - simpl. tauto.
  - unfold wf_date, wf_day. vm_compute. intuition discriminate.
  - reflexivity.
  - reflexivity.
  - vm_compute. reflexivity.
  - vm_compute. split; discriminate.
Defined.

(* ================================================================== *)
(** ** One validation for the three entry points *)
(* ================================================================== *)

Lemma never_throws_bind {A B : Type} (m : outcome A) (k : A -> outcome B) :
  never_throws m -> (forall a, never_throws (k a)) -> never_throws (bind m k).
Proof.
  intros Hm Hk e. destruct m as [a|e'|]; simpl.
  - apply Hk.
  - exfalso. now apply (Hm e').
  - discriminate.
Qed.

Lemma never_throws_Return {A : Type} (a : A) : never_throws (Return a).
Proof. intros e. discriminate. Qed.

Lemma parseInt10_never_throws (s : string) : never_throws (parseInt10 s).
Proof.
  intros e. unfold parseInt10. destruct (negb (ascii_only s)); [discriminate|].
  destruct (strip_sign (trimStart s)) as [sign body].
  destruct (takeDigits body); [discriminate|].
  destruct (exact_digits _); discriminate.
Qed.

Lemma parseInt_never_throws (s : string) : never_throws (parseInt s).
Proof.
  intros e. unfold parseInt. destruct (negb (ascii_only s)); [discriminate|].
  destruct (strip_sign (trimStart s)) as [sign body].
  destruct (_ || _); [discriminate | apply parseInt10_never_throws].
Qed.

Lemma nameOf_never_throws (names : option (list string)) (text : string) :
  never_throws (nameOf names text).
Proof.
  destruct names; simpl; [|apply never_throws_Return].
  apply never_throws_bind; [apply parseInt_never_throws|].
  intros; apply never_throws_Return.
Qed.

Lemma explainPart_never_throws (names : option (list string)) (part : string) :
  never_throws (explainPart names part).
Proof.
  unfold explainPart.
  repeat match goal with
         | |- never_throws (if ?b then _ else _) => destruct b
         | |- never_throws (let (_, _) := ?p in _) => destruct p
         | |- never_throws (bind _ _) => apply never_throws_bind; [|intros ?]
         | |- never_throws (Return _) => apply never_throws_Return
         | |- never_throws (nameOf _ _) => apply nameOf_never_throws
         | |- never_throws (parseInt10 _) => apply parseInt10_never_throws
         end.
Qed.

Lemma explainField_never_throws (text : string) (min max : Z)
  (names : option (list string)) :
  never_throws (explainField text min max names).
Proof.
  unfold explainField. destruct (String.eqb text "*"); [apply never_throws_Return|].
  apply never_throws_bind; [|intros; apply never_throws_Return].
  induction (split ","%char text) as [|p ps IH]; simpl;
    [apply never_throws_Return|].
  apply never_throws_bind; [apply explainPart_never_throws|]. intros d.
  apply never_throws_bind; [exact IH|]. intros; apply never_throws_Return.
Qed.

Lemma explainHours_never_throws (hs : list string) : never_throws (explainHours hs).
Proof.
  induction hs as [|h hs IH]; simpl; [apply never_throws_Return|].
  apply never_throws_bind.
  - unfold explainHour. destruct (includes "-"%char h); [apply never_throws_Return|].
    apply never_throws_bind; [apply parseInt10_never_throws|].
    intros; apply never_throws_Return.
  - intros v. apply never_throws_bind; [exact IH|]. intros; apply never_throws_Return.
Qed.

(** [explainCron] is the [try] block of [validateCron] followed by a
    rendering that does not throw. *)
Lemma explainCron_after_validation (expr : string) :
  match validateCron_try expr with
  | Return _ => never_throws (explainCron expr)
  | Throw e => explainCron expr = Throw e
  | Unmodelled => explainCron expr = Unmodelled
  end.
Proof.
  unfold validateCron_try, explainCron.
  destruct (parseCron expr) as [parts| |]; cbn [bind]; try reflexivity.
  destruct (parseField (minute parts) 0 59); cbn [bind]; try reflexivity.
  destruct (parseField (hour parts) 0 23); cbn [bind]; try reflexivity.
  destruct (parseField (dayOfMonth parts) 1 31); cbn [bind]; try reflexivity.
  destruct (parseField (month parts) 1 12); cbn [bind]; try reflexivity.
  destruct (parseField (dayOfWeek parts) 0 7); cbn [bind]; try reflexivity.
  repeat match goal with
         | |- never_throws (if ?b then _ else _) => destruct b
         | |- never_throws (bind _ _) => apply never_throws_bind; [|intros ?]
         | |- never_throws (Return _) => apply never_throws_Return
         | |- never_throws (explainField _ _ _ _) => apply explainField_never_throws
         | |- never_throws (explainHours _) => apply explainHours_never_throws
         end.
Qed.

Lemma prepare_after_validation (expr : string) :
  match validateCron_try expr with
  | Return _ => exists q, prepare expr = Return q
  | Throw e => prepare expr = Throw e
  | Unmodelled => prepare expr = Unmodelled
  end.
Proof.
  unfold validateCron_try, prepare.
  destruct (parseCron expr) as [parts| |]; cbn [bind]; try reflexivity.
  destruct (parseField (minute parts) 0 59); cbn [bind]; try reflexivity.
  destruct (parseField (hour parts) 0 23); cbn [bind]; try reflexivity.
  destruct (parseField (dayOfMonth parts) 1 31); cbn [bind]; try reflexivity.
  destruct (parseField (month parts) 1 12); cbn [bind]; try reflexivity.
  destruct (parseField (dayOfWeek parts) 0 7); cbn [bind]; try reflexivity.
  eexists. reflexivity.
Qed.

(** The three entry points agree on what is an error.  When [validateCron]
    reports a message, [explainCron] and [getNextRuns] both throw an error
    with that message; when it reports a valid expression, [explainCron]
    does not throw and [getNextRuns] returns a list; and an expression that
    [explainCron] explains is one that [validateCron] reports valid. *)
Theorem entry_points_agree (expr : string) :
  (forall msg,
      validateCron expr = Return (mkValidation false (Some msg)) ->
      exists e,
        message e = msg /\ explainCron expr = Throw e
        /\ forall z count now, getNextRuns z expr count now = Throw e)
  /\ (validateCron expr = Return (mkValidation true None) ->
      (forall e, explainCron expr <> Throw e)
      /\ forall z count now, exists rs, getNextRuns z expr count now = Return rs)
  /\ (forall e, explainCron expr = Throw e ->
                validateCron expr = Return (mkValidation false (Some (message e))))
  /\ (forall text, explainCron expr = Return text ->
                   validateCron expr = Return (mkValidation true None)).
Proof.
  pose proof (explainCron_after_validation expr) as Hex.
  pose proof (prepare_after_validation expr) as Hpr.
  unfold validateCron.
  destruct (validateCron_try expr) as [u|e0|];
    (split; [|split; [|split]]).
  - discriminate.
  - intros _. split; [exact Hex|]. intros z count now. destruct Hpr as [q Hq].
    unfold getNextRuns. rewrite Hq. cbn [bind]. now eexists.
  - intros e He. exfalso. now apply (Hex e).
  - reflexivity.
  - intros msg [= <-]. exists e0. split; [reflexivity|]. split; [exact Hex|].
    intros z count now. unfold getNextRuns. now rewrite Hpr.
  - discriminate.
  - intros e He. rewrite Hex in He. now injection He as ->.
  - intros text He. rewrite Hex in He. discriminate.
  - discriminate.
  - discriminate.
  - intros e He. rewrite Hex in He. discriminate.
  - intros text He. rewrite Hex in He. discriminate.
Qed.

Lemma entry_points_agree_witness :
  exists e,
    message e = "Value 25 out of range [0-23]"
    /\ explainCron "0 25 * * *" = Throw e
    /\ forall z count now, getNextRuns z "0 25 * * *" count now = Throw e.
Proof.
  apply (proj1 (entry_points_agree "0 25 * * *")). reflexivity.
Defined.

(** A single hour from 0 to 23 is rendered on the 12-hour clock: 0 and 12
    as 12, the others modulo 12, with AM before noon and PM from noon. *)
Theorem explainHour_clock (n : Z) :
  0 <= n <= 23 ->
  explainHour (string_of_Z n)
  = Return (string_of_Z (if n mod 12 =? 0 then 12 else n mod 12)
              ++ ":00 " ++ (if n <? 12 then "AM" else "PM")).
Proof.
  intros Hn.
  assert (Hcases : In n (interval 0 23)) by (apply interval_In; lia).
  vm_compute in Hcases.
  repeat (destruct Hcases as [<-|Hcases]; [vm_compute; reflexivity|]).
  destruct Hcases.
Qed.

Lemma explainHour_clock_witness :
  explainHour (string_of_Z 15)
  = Return (string_of_Z (if 15 mod 12 =? 0 then 12 else 15 mod 12)
              ++ ":00 " ++ (if 15 <? 12 then "AM" else "PM")).
Proof. apply (explainHour_clock 15). lia. Defined.

(* ================================================================== *)
(** ** [replaceNames] and [parseCron] *)
(* ================================================================== *)

Lemma toLowerCase_no_letters (s : string) :
  no_letters s = true -> toLowerCase s = s.
Proof.
  induction s as [|c s IH]; simpl; [reflexivity|]. intros H.
  apply andb_true_iff in H as [Hc Hs]. rewrite (IH Hs).
  unfold lower_char, is_letter in *.
  destruct (is_upper c); [discriminate | reflexivity].
Qed.

Lemma replaceAll_no_letters (c : ascii) (name rep s : string) :
  is_letter c = true -> no_letters s = true ->
  replaceAll (String c name) rep s = s.
Proof.
  intros Hc. unfold replaceAll.
  induction s as [|d s IH]; intros H; [reflexivity|].
  simpl in H. apply andb_true_iff in H as [Hd Hs].
  cbn [replaceAll_from].
  assert (Hp : String.prefix (String c name) (String d s) = false).
  { simpl. destruct (ascii_dec c d) as [->|]; [|reflexivity].
    rewrite Hc in Hd. discriminate. }
  rewrite Hp, (IH Hs). reflexivity.
Qed.

(** A month or day-of-week field of ASCII characters without letters is
    passed through unchanged. *)
Theorem replaceNames_numeric (field : string) :
  ascii_only field = true ->
  no_letters field = true ->
  replaceNames field MONTH_MAP = field /\ replaceNames field DAY_MAP = field.
Proof.
  intros _ H. unfold replaceNames, MONTH_MAP, DAY_MAP.
  rewrite (toLowerCase_no_letters field H). cbn [fold_left fst snd].
  repeat (rewrite (fun c n r => replaceAll_no_letters c n r field)
           by (reflexivity || exact H)).
  split; reflexivity.
Qed.

Lemma replaceNames_numeric_witness :
  replaceNames "1-12/2,*" MONTH_MAP = "1-12/2,*"
  /\ replaceNames "1-12/2,*" DAY_MAP = "1-12/2,*".
Proof. apply (replaceNames_numeric "1-12/2,*"); reflexivity. Defined.

(** The name tables are consistent: every abbreviation, in lower or upper
    case, is replaced by a number, and the entry of the explanation table
    at that number is a name that starts with the abbreviation. *)
Theorem names_resolve :
  Forall (fun entry =>
            replaceNames (fst entry) MONTH_MAP = string_of_Z (snd entry)
            /\ replaceNames (toUpperCase (fst entry)) MONTH_MAP
               = string_of_Z (snd entry)
            /\ exists full,
                index MONTH_NAMES (Num (snd entry)) = Some full
                /\ toLowerCase (String.substring 0 3 full) = fst entry)
         MONTH_MAP
  /\ Forall (fun entry =>
               replaceNames (fst entry) DAY_MAP = string_of_Z (snd entry)
               /\ replaceNames (toUpperCase (fst entry)) DAY_MAP
                  = string_of_Z (snd entry)
               /\ exists full,
                   index DAY_NAMES (Num (snd entry)) = Some full
                   /\ toLowerCase (String.substring 0 3 full) = fst entry)
            DAY_MAP.
Proof.
  split; repeat constructor; try (vm_compute; reflexivity);
    eexists; split; vm_compute; reflexivity.
Qed.

Lemma no_ws_first (s : string) :
  s <> EmptyString -> no_ws s = true ->
  exists c r, s = String c r /\ is_ws c = false /\ no_ws r = true.
Proof.
  destruct s as [|c r]; [congruence|]. simpl. intros _ H.
  apply andb_true_iff in H as [Hc Hr]. exists c, r.
  split; [reflexivity|]. split; [now apply negb_true_iff | exact Hr].
Qed.

Lemma splitWs_from_nonempty (b : bool) (s : string) : splitWs_from b s <> [].
Proof.
  revert b. induction s as [|c s IH]; intros b; simpl; [discriminate|].
  destruct (is_ws c).
  - destruct b; [apply IH | discriminate].
  - destruct (splitWs_from false s); discriminate.
Qed.

(** A run of characters without whitespace is read into the current
    token. *)
Lemma splitWs_token (t r : string) :
  no_ws t = true ->
  splitWs_from false (t ++ r)
  = match splitWs_from false r with
    | h :: tl => (t ++ h) :: tl
    | [] => [t]
    end.
Proof.
  induction t as [|c t IH]; simpl; intros H.
  - destruct (splitWs_from false r) eqn:E; [|reflexivity].
    now apply splitWs_from_nonempty in E.
  - apply andb_true_iff in H as [Hc Ht]. apply negb_true_iff in Hc.
    rewrite Hc, (IH Ht).
    destruct (splitWs_from false r) eqn:E; [|reflexivity].
    now apply splitWs_from_nonempty in E.
Qed.

Lemma splitWs_after_space (t : string) :
  t <> EmptyString -> no_ws t = true ->
  forall r, splitWs_from true (t ++ r) = splitWs_from false (t ++ r).
Proof.
  intros Hne Hws r. destruct (no_ws_first t Hne Hws) as (c & t' & -> & Hc & _).
  simpl. now rewrite Hc.
Qed.

Lemma append_nil_r (s : string) : s ++ "" = s.
Proof. induction s as [|c s IH]; simpl; [reflexivity | now rewrite IH]. Qed.

(** Tokens joined by single spaces are split back into the same tokens. *)
Lemma splitWs_join (toks : list string) :
  toks <> [] -> Forall field_token toks ->
  splitWs (join " " toks) = toks.
Proof.
  unfold splitWs. induction toks as [|t toks IH]; [congruence|].
  intros _ Hall. inversion Hall as [|? ? [Hne [Hws Hasc]] Hrest]; subst.
  destruct toks as [|u toks].
  - simpl. rewrite <- (append_nil_r t) at 1.
    rewrite (splitWs_token t "" Hws). simpl. now rewrite append_nil_r.
  - change (join " " (t :: u :: toks)) with (t ++ " " ++ join " " (u :: toks)).
    inversion Hrest as [|? ? [Hune [Huws _]] _]; subst.
    assert (Hj : exists r, join " " (u :: toks) = u ++ r).
    { destruct toks; [exists ""; simpl; now rewrite append_nil_r|].
      now exists (" " ++ join " " (s :: toks)). }
    assert (Htail : splitWs_from true (join " " (u :: toks)) = u :: toks).
    { destruct Hj as [r Hj].
      rewrite Hj, (splitWs_after_space u Hune Huws), <- Hj.
      apply IH; [discriminate | exact Hrest]. }
    generalize dependent (join " " (u :: toks)). intros rest _ _ Htail.
    rewrite (splitWs_token t (" " ++ rest) Hws).
    change (splitWs_from false (" " ++ rest))
      with (EmptyString :: splitWs_from true rest).
    now rewrite Htail, append_nil_r.
Qed.

Lemma trimEnd_no_ws (t : string) : no_ws t = true -> trimEnd t = t.
Proof.
  induction t as [|c t IH]; simpl; [reflexivity|]. intros H.
  apply andb_true_iff in H as [Hc Ht]. apply negb_true_iff in Hc.
  now rewrite Hc, (IH Ht).
Qed.

Lemma trimEnd_app_token (a t : string) :
  t <> EmptyString -> no_ws t = true -> trimEnd (a ++ t) = a ++ t.
Proof.
  intros Hne Hws. induction a as [|c a IH]; simpl; [now apply trimEnd_no_ws|].
  rewrite IH. destruct (String.eqb_spec (a ++ t) "") as [E|_].
  - destruct a; simpl in E; [contradiction | discriminate].
  - now rewrite andb_false_r.
Qed.

Lemma join_last (toks : list string) (t : string) :
  exists a, join " " (toks ++ [t]) = a ++ t.
Proof.
  induction toks as [|u toks IH]; simpl; [now exists ""|].
  destruct IH as [a Ha]. destruct (toks ++ [t])%list eqn:E.
  - destruct toks; discriminate.
  - rewrite Ha. exists (u ++ " " ++ a). now rewrite !append_assoc.
Qed.

Lemma trim_join (toks : list string) :
  toks <> [] -> Forall field_token toks ->
  trim (join " " toks) = join " " toks.
Proof.
  intros Hne Hall. unfold trim.
  assert (Hstart : trimStart (join " " toks) = join " " toks).
  { destruct toks as [|t toks]; [congruence|].
    inversion Hall as [|? ? [Htne [Hws _]] _]; subst.
    destruct (no_ws_first t Htne Hws) as (c & t' & -> & Hc & _).
    destruct toks; simpl; now rewrite Hc. }
  rewrite Hstart.
  destruct (exists_last Hne) as (front & t & ->).
  apply Forall_app in Hall as [_ Hlast].
  inversion Hlast as [|? ? [Htne [Hws _]] _]; subst.
  destruct (join_last front t) as [a ->].
  now apply trimEnd_app_token.
Qed.

Lemma ascii_only_app (a b : string) :
  ascii_only (a ++ b) = ascii_only a && ascii_only b.
Proof.
  induction a as [|c a IH]; simpl; [reflexivity|].
  now rewrite IH, andb_assoc.
Qed.

Lemma ascii_only_join (toks : list string) :
  Forall field_token toks -> ascii_only (join " " toks) = true.
Proof.
  induction 1 as [|t toks [_ [_ Ht]] Hall IH]; [reflexivity|].
  destruct toks as [|u toks]; [exact Ht|].
  change (join " " (t :: u :: toks)) with (t ++ " " ++ join " " (u :: toks)).
  rewrite !ascii_only_app, Ht, IH. reflexivity.
Qed.

(** Fields joined by single spaces are read back as they are: five of them
    give the parts, with names replaced in the last two, and any other
    number of them is reported with that number. *)
Theorem parseCron_of_fields (toks : list string) :
  toks <> [] -> Forall field_token toks ->
  parseCron (join " " toks)
  = match toks with
    | [p0; p1; p2; p3; p4] =>
        Return (mkCronParts p0 p1 p2
                  (replaceNames p3 MONTH_MAP) (replaceNames p4 DAY_MAP))
    | _ => Throw (FieldCount (List.length toks))
    end.
Proof.
  intros Hne Hall. unfold parseCron.
  rewrite (ascii_only_join toks Hall), (trim_join toks Hne Hall),
    (splitWs_join toks Hne Hall).
  cbn [negb].
  destruct toks as [|p0 [|p1 [|p2 [|p3 [|p4 [|p5 toks]]]]]]; reflexivity.
Qed.

Lemma parseCron_of_fields_witness :
  parseCron (join " " ["*/5"; "9-17"; "1"; "JAN"; "mon-fri"])
  = Return (mkCronParts "*/5" "9-17" "1"
              (replaceNames "JAN" MONTH_MAP) (replaceNames "mon-fri" DAY_MAP)).
Proof.
  apply (parseCron_of_fields ["*/5"; "9-17"; "1"; "JAN"; "mon-fri"]).
  - discriminate.
  - repeat constructor; discriminate.
Defined.

(* ================================================================== *)
(** ** [formatDate] *)
(* ================================================================== *)

Lemma index_in_table (names : list string) (z : Z) :
  0 <= z < Z.of_nat (List.length names) ->
  exists name, index names (Num z) = Some name /\ In name names.
Proof.
  intros Hz. unfold index.
  destruct (Z.ltb_spec z 0) as [|_]; [lia|].
  destruct (nth_error names (Z.to_nat z)) as [name|] eqn:E.
  - exists name. split; [reflexivity|]. now apply nth_error_In in E.
  - apply nth_error_None in E. lia.
Qed.

Lemma padStart_two (k : Z) :
  0 <= k <= 59 -> padStart 2 "0" (string_of_Z k) = two_digits k.
Proof.
  intros Hk.
  assert (Hcases : In k (interval 0 59)) by (apply interval_In; lia).
  vm_compute in Hcases.
  repeat (destruct Hcases as [<-|Hcases]; [vm_compute; reflexivity|]).
  destruct Hcases.
Qed.

(** For a calendar date the text is built from a weekday and a month name
    of the two tables (never [undefined]), the day and the year in
    decimal, and the hour and minute as two digits each, zero-padded. *)
Theorem formatDate_shape (d : Date) :
  wf_date d ->
  exists day mon,
    In day ["Sun"; "Mon"; "Tue"; "Wed"; "Thu"; "Fri"; "Sat"]
    /\ In mon ["Jan"; "Feb"; "Mar"; "Apr"; "May"; "Jun";
               "Jul"; "Aug"; "Sep"; "Oct"; "Nov"; "Dec"]
    /\ formatDate d
       = day ++ ", " ++ mon ++ " " ++ string_of_Z (getDate d) ++ " "
           ++ string_of_Z (getFullYear d) ++ " "
           ++ two_digits (getHours d) ++ ":" ++ two_digits (getMinutes d).
Proof.
  intros Hwf. unfold formatDate. cbv zeta.
  rewrite !padStart_two by (unfold wf_date in Hwf; lia).
  destruct (index_in_table ["Sun"; "Mon"; "Tue"; "Wed"; "Thu"; "Fri"; "Sat"]
              (getDay d)) as (day & -> & Hday).
  { unfold getDay. pose proof (Z.mod_pos_bound
      (dayNumber (getFullYear d, getMonth d, getDate d) + 4) 7).
    simpl List.length. lia. }
  destruct (index_in_table ["Jan"; "Feb"; "Mar"; "Apr"; "May"; "Jun";
                            "Jul"; "Aug"; "Sep"; "Oct"; "Nov"; "Dec"]
              (getMonth d)) as (mon & -> & Hmon).
  { unfold wf_date, wf_day in Hwf. simpl List.length. lia. }
  exists day, mon. split; [exact Hday|]. split; [exact Hmon | reflexivity].
Qed.

Lemma formatDate_shape_witness :
  exists day mon,
    In day ["Sun"; "Mon"; "Tue"; "Wed"; "Thu"; "Fri"; "Sat"]
    /\ In mon ["Jan"; "Feb"; "Mar"; "Apr"; "May"; "Jun";
               "Jul"; "Aug"; "Sep"; "Oct"; "Nov"; "Dec"]
    /\ formatDate (mkDate 2026 10 9 9 5 0 0)
       = day ++ ", " ++ mon ++ " " ++ string_of_Z 9 ++ " "
           ++ string_of_Z 2026 ++ " " ++ two_digits 9 ++ ":" ++ two_digits 5.
Proof.
  apply (formatDate_shape (mkDate 2026 10 9 9 5 0 0)).
  unfold wf_date, wf_day. vm_compute. intuition discriminate.
Defined.

Example formatDate_run :
  formatDate (mkDate 2026 10 9 9 5 0 0) = "Mon, Nov 9 2026 09:05".
Proof. vm_compute. reflexivity. Qed.
